(** * Orbit Tasks (script.js): a shallow embedding and its verified properties

  The program is a browser to-do list.  Its state is the module-level
  array [tasks], the filter mode [currentFilter], the text of the input
  field and the browser's [localStorage].  Every mutation of [tasks] ends
  in [saveAndRender], which serialises the array with [JSON.stringify],
  stores it under the key [orbitTasks] and re-renders.

  The embedding follows the script section by section:
  - JavaScript strings are sequences of UTF-16 code units ([list N]);
  - the task array is a [list Task], newest first;
  - [localStorage] is a finite map from strings to strings;
  - the host functions the script calls ([String.prototype.trim],
    [JSON.stringify], [JSON.parse], [Math.round], Number division and
    multiplication) are modelled after ECMA-262, Numbers being IEEE 754
    binary64 values ([spec_float]). *)

From Stdlib Require Import ZArith NArith List Bool Ascii String Lia SpecFloat.
From Stdlib Require Import DecimalFacts DecimalPos DecimalN.
From Stdlib Require Import Reals Lra.
From stdpp Require Import base option list gmap.

Import ListNotations.
Local Open Scope N_scope.

(** ** 1. JavaScript strings *)

Module JsString.

(** A string value is a finite sequence of 16-bit code units. *)
Definition jsstring := list N.

(** A literal of the script, written as a Rocq string (ASCII only). *)
Definition js (s : string) : jsstring :=
  List.map N_of_ascii (list_ascii_of_string s).

(** ECMA-262 WhiteSpace and LineTerminator code points, the set that
    [String.prototype.trim] strips: TAB, VT, FF, SP, NBSP, ZWNBSP, the
    Unicode Space_Separator category, and LF, CR, LS, PS. *)
Definition isWhiteSpace (c : N) : bool :=
  (c =? 9) || (c =? 10) || (c =? 11) || (c =? 12) || (c =? 13) ||
  (c =? 32) || (c =? 160) || (c =? 5760) ||
  ((8192 <=? c) && (c <=? 8202)) ||
  (c =? 8232) || (c =? 8233) || (c =? 8239) || (c =? 8287) ||
  (c =? 12288) || (c =? 65279).

Fixpoint trimStart (s : jsstring) : jsstring :=
  match s with
  | [] => []
  | c :: r => if isWhiteSpace c then trimStart r else s
  end.

Definition trimEnd (s : jsstring) : jsstring := rev (trimStart (rev s)).

(** [s.trim()] *)
Definition trim (s : jsstring) : jsstring := trimEnd (trimStart s).

(** A string that consists of white space only (the empty string included). *)
Definition whitespace_only (s : jsstring) : bool := forallb isWhiteSpace s.

(** [s === ''] *)
Definition is_empty (s : jsstring) : bool :=
  match s with [] => true | _ :: _ => false end.

(** ToBoolean on a string: the empty string is the only falsy one. *)
Definition truthy (s : jsstring) : bool := negb (is_empty s).

End JsString.
Export JsString.

(** ** 2. Numbers: binary64 arithmetic and [Math.round] *)

Module Number.

Definition prec : Z := 53.
Definition emax : Z := 1024.

Definition number := spec_float.

(** The Number value of a mathematical integer (round to nearest even). *)
Definition of_Z (z : Z) : number := binary_normalize prec emax z 0 false.
Definition of_nat (n : nat) : number := of_Z (Z.of_nat n).

(** [x / y] and [x * y] on Numbers. *)
Definition div (x y : number) : number := SFdiv prec emax x y.
Definition mul (x y : number) : number := SFmul prec emax x y.

(** [Math.round x]: the integral Number closest to [x], ties going
    towards +Infinity: [floor (x + 1/2)], computed exactly on the
    mantissa.  NaN, the infinities, the zeros and every Number with a
    non-negative exponent (already integral) are returned as they are; a
    result of zero keeps the sign of [x]. *)
Definition Math_round (x : number) : number :=
  match x with
  | S754_finite s m (Zneg k) =>
      let v := cond_Zopp s (Zpos m) in
      match ((2 * v + 2 ^ Zpos k) / 2 ^ (Zpos k + 1))%Z with
      | Z0 => S754_zero s
      | z => of_Z z
      end
  | _ => x
  end.

End Number.

(** ** 3. JSON: the values, [JSON.stringify] and [JSON.parse] *)

Module JSON.

(** The values the script serialises.  A Number is an integer here:
    the only Number a task holds is its [id], a millisecond timestamp.
    An object is the list of its members in the order of the text. *)
#[local] Unset Elimination Schemes.
Inductive json : Type :=
| JNull
| JBool (b : bool)
| JNum (n : Z)
| JStr (s : jsstring)
| JArr (elements : list json)
| JObj (members : list (jsstring * json)).
#[local] Set Elimination Schemes.

(** *** Serialisation *)

Fixpoint uint_chars (u : Decimal.uint) : jsstring :=
  match u with
  | Decimal.Nil => []
  | Decimal.D0 u => 48 :: uint_chars u
  | Decimal.D1 u => 49 :: uint_chars u
  | Decimal.D2 u => 50 :: uint_chars u
  | Decimal.D3 u => 51 :: uint_chars u
  | Decimal.D4 u => 52 :: uint_chars u
  | Decimal.D5 u => 53 :: uint_chars u
  | Decimal.D6 u => 54 :: uint_chars u
  | Decimal.D7 u => 55 :: uint_chars u
  | Decimal.D8 u => 56 :: uint_chars u
  | Decimal.D9 u => 57 :: uint_chars u
  end.

(** Number::toString on an integer: its decimal numeral. *)
Definition Number_toString (n : Z) : jsstring :=
  match n with
  | Z0 => [48]
  | Zpos p => uint_chars (Pos.to_uint p)
  | Zneg p => 45 :: uint_chars (Pos.to_uint p)
  end.

Definition hexdig (d : N) : N := if d <? 10 then 48 + d else 87 + d.

(** UnicodeEscape: a backslash, [u] and four lowercase hexadecimal digits. *)
Definition unicode_escape (c : N) : jsstring :=
  [92; 117; hexdig (c / 4096 mod 16); hexdig (c / 256 mod 16);
   hexdig (c / 16 mod 16); hexdig (c mod 16)].

Definition is_lead_surrogate (c : N) : bool := (55296 <=? c) && (c <=? 56319).
Definition is_trail_surrogate (c : N) : bool := (56320 <=? c) && (c <=? 57343).

(** One code unit that is not part of a surrogate pair. *)
Definition escape_unit (c : N) : jsstring :=
  if c =? 8 then [92; 98]
  else if c =? 9 then [92; 116]
  else if c =? 10 then [92; 110]
  else if c =? 12 then [92; 102]
  else if c =? 13 then [92; 114]
  else if c =? 34 then [92; 34]
  else if c =? 92 then [92; 92]
  else if (c <? 32) || is_lead_surrogate c || is_trail_surrogate c
       then unicode_escape c
  else [c].

(** The body of QuoteJSONString: a well-formed surrogate pair is copied,
    a lone surrogate is escaped. *)
Fixpoint quote_units (s : jsstring) : jsstring :=
  match s with
  | [] => []
  | c :: r =>
      if is_lead_surrogate c then
        match r with
        | d :: r' =>
            if is_trail_surrogate d then c :: d :: quote_units r'
            else unicode_escape c ++ quote_units r
        | [] => unicode_escape c
        end
      else escape_unit c ++ quote_units r
  end.

Definition QuoteJSONString (s : jsstring) : jsstring :=
  34 :: quote_units s ++ [34].

Fixpoint join_comma (parts : list jsstring) : jsstring :=
  match parts with
  | [] => []
  | p :: rest =>
      match rest with
      | [] => p
      | _ :: _ => p ++ 44 :: join_comma rest
      end
  end.

(** [JSON.stringify v] with no replacer and no indentation. *)
Fixpoint stringify (v : json) : jsstring :=
  match v with
  | JNull => js "null"
  | JBool true => js "true"
  | JBool false => js "false"
  | JNum n => Number_toString n
  | JStr s => QuoteJSONString s
  | JArr vs => 91 :: join_comma (List.map stringify vs) ++ [93]
  | JObj ms =>
      123 :: join_comma
               (List.map (fun kv => QuoteJSONString (fst kv) ++ 58 :: stringify (snd kv)) ms)
          ++ [125]
  end.

(** *** Parsing *)

(** JSON white space: TAB, LF, CR, SP. *)
Definition is_json_ws (c : N) : bool :=
  (c =? 9) || (c =? 10) || (c =? 13) || (c =? 32).

Fixpoint skip_ws (s : jsstring) : jsstring :=
  match s with
  | [] => []
  | c :: r => if is_json_ws c then skip_ws r else s
  end.

Fixpoint strip_prefix (p s : jsstring) : option jsstring :=
  match p, s with
  | [], _ => Some s
  | a :: p', b :: s' => if a =? b then strip_prefix p' s' else None
  | _ :: _, [] => None
  end.

Definition hexval (c : N) : option N :=
  if (48 <=? c) && (c <=? 57) then Some (c - 48)
  else if (97 <=? c) && (c <=? 102) then Some (c - 87)
  else if (65 <=? c) && (c <=? 70) then Some (c - 55)
  else None.

(** The characters of a string literal after its opening quote, up to
    and including the closing quote. *)
Fixpoint parse_string (s : jsstring) : option (jsstring * jsstring) :=
  match s with
  | [] => None
  | c :: r =>
      if c =? 34 then Some ([], r)
      else if c =? 92 then
        match r with
        | [] => None
        | e :: r1 =>
            if e =? 117 then
              match r1 with
              | h3 :: h2 :: h1 :: h0 :: r2 =>
                  match hexval h3, hexval h2, hexval h1, hexval h0 with
                  | Some a, Some b, Some c', Some d =>
                      match parse_string r2 with
                      | Some (str, rest) =>
                          Some (a * 4096 + b * 256 + c' * 16 + d :: str, rest)
                      | None => None
                      end
                  | _, _, _, _ => None
                  end
              | _ => None
              end
            else
              let unescaped :=
                if e =? 34 then Some 34
                else if e =? 92 then Some 92
                else if e =? 47 then Some 47
                else if e =? 98 then Some 8
                else if e =? 102 then Some 12
                else if e =? 110 then Some 10
                else if e =? 114 then Some 13
                else if e =? 116 then Some 9
                else None in
              match unescaped with
              | Some u =>
                  match parse_string r1 with
                  | Some (str, rest) => Some (u :: str, rest)
                  | None => None
                  end
              | None => None
              end
        end
      else if c <? 32 then None
      else
        match parse_string r with
        | Some (str, rest) => Some (c :: str, rest)
        | None => None
        end
  end.

Definition is_digit (c : N) : bool := (48 <=? c) && (c <=? 57).

Definition digit_cons (c : N) (u : Decimal.uint) : Decimal.uint :=
  match c - 48 with
  | 0 => Decimal.D0 u
  | 1 => Decimal.D1 u
  | 2 => Decimal.D2 u
  | 3 => Decimal.D3 u
  | 4 => Decimal.D4 u
  | 5 => Decimal.D5 u
  | 6 => Decimal.D6 u
  | 7 => Decimal.D7 u
  | 8 => Decimal.D8 u
  | _ => Decimal.D9 u
  end.

(** The longest run of decimal digits at the head of [s]. *)
Fixpoint read_digits (s : jsstring) : Decimal.uint * jsstring :=
  match s with
  | [] => (Decimal.Nil, [])
  | c :: r =>
      if is_digit c then
        let '(u, rest) := read_digits r in (digit_cons c u, rest)
      else (Decimal.Nil, s)
  end.

(** The end of an integer numeral: a fraction or an exponent after it
    makes a Number that is no integer, and is rejected. *)
Definition finish_number (u : Decimal.uint) (rest : jsstring)
  : option (N * jsstring) :=
  match rest with
  | c :: _ =>
      if (c =? 46) || (c =? 101) || (c =? 69) then None
      else Some (N.of_uint u, rest)
  | [] => Some (N.of_uint u, rest)
  end.

(** An integer numeral: at least one digit, no leading zero. *)
Definition parse_digits (s : jsstring) : option (N * jsstring) :=
  let '(u, rest) := read_digits s in
  match u with
  | Decimal.Nil => None
  | Decimal.D0 Decimal.Nil => finish_number u rest
  | Decimal.D0 _ => None
  | _ => finish_number u rest
  end.

Definition parse_number (s : jsstring) : option (json * jsstring) :=
  match s with
  | [] => None
  | c :: r =>
      if c =? 45 then
        match parse_digits r with
        | Some (n, rest) => Some (JNum (- Z.of_N n), rest)
        | None => None
        end
      else
        match parse_digits s with
        | Some (n, rest) => Some (JNum (Z.of_N n), rest)
        | None => None
        end
  end.

(** [s] with its first code unit removed, if that is [c]. *)
Definition starts_with (c : N) (s : jsstring) : option jsstring :=
  match s with
  | x :: r => if x =? c then Some r else None
  | [] => None
  end.

(** A scalar: a string, one of the three literal names, or a number. *)
Definition parse_scalar (s : jsstring) : option (json * jsstring) :=
  match starts_with 34 s with
  | Some r =>
      match parse_string r with
      | Some (str, rest) => Some (JStr str, rest)
      | None => None
      end
  | None =>
      match strip_prefix (js "true") s with
      | Some rest => Some (JBool true, rest)
      | None =>
      match strip_prefix (js "false") s with
      | Some rest => Some (JBool false, rest)
      | None =>
      match strip_prefix (js "null") s with
      | Some rest => Some (JNull, rest)
      | None => parse_number s
      end end end
  end.

(** The recursive descent, metered by [fuel]: every call of one of the
    three functions spends one unit. *)
Fixpoint parse_value (fuel : nat) (s : jsstring) {struct fuel}
  : option (json * jsstring) :=
  match fuel with
  | O => None
  | S fuel' =>
      let s' := skip_ws s in
      match starts_with 91 s' with
      | Some r =>
          match starts_with 93 (skip_ws r) with
          | Some rest => Some (JArr [], rest)
          | None =>
              match parse_elements fuel' r with
              | Some (vs, rest) => Some (JArr vs, rest)
              | None => None
              end
          end
      | None =>
      match starts_with 123 s' with
      | Some r =>
          match starts_with 125 (skip_ws r) with
          | Some rest => Some (JObj [], rest)
          | None =>
              match parse_members fuel' r with
              | Some (ms, rest) => Some (JObj ms, rest)
              | None => None
              end
          end
      | None => parse_scalar s'
      end end
  end
with parse_elements (fuel : nat) (s : jsstring) {struct fuel}
  : option (list json * jsstring) :=
  match fuel with
  | O => None
  | S fuel' =>
      match parse_value fuel' s with
      | Some (v, r) =>
          match starts_with 44 (skip_ws r) with
          | Some r' =>
              match parse_elements fuel' r' with
              | Some (vs, rest) => Some (v :: vs, rest)
              | None => None
              end
          | None =>
              match starts_with 93 (skip_ws r) with
              | Some rest => Some ([v], rest)
              | None => None
              end
          end
      | None => None
      end
  end
with parse_members (fuel : nat) (s : jsstring) {struct fuel}
  : option (list (jsstring * json) * jsstring) :=
  match fuel with
  | O => None
  | S fuel' =>
      match starts_with 34 (skip_ws s) with
      | Some r =>
          match parse_string r with
          | Some (k, r1) =>
              match starts_with 58 (skip_ws r1) with
              | Some r2 =>
                  match parse_value fuel' r2 with
                  | Some (v, r3) =>
                      match starts_with 44 (skip_ws r3) with
                      | Some r4 =>
                          match parse_members fuel' r4 with
                          | Some (ms, rest) => Some ((k, v) :: ms, rest)
                          | None => None
                          end
                      | None =>
                          match starts_with 125 (skip_ws r3) with
                          | Some rest => Some ([(k, v)], rest)
                          | None => None
                          end
                      end
                  | None => None
                  end
              | None => None
              end
          | None => None
          end
      | None => None
      end
  end.

(** [JSON.parse text] with no reviver: [None] stands for the SyntaxError
    exception (and for a numeral that is not an integer).  The text has
    more characters than any value in it has nested parts, so its length
    is fuel enough. *)
Definition parse (text : jsstring) : option json :=
  match parse_value (S (length text)) text with
  | Some (v, rest) =>
      match skip_ws rest with
      | [] => Some v
      | _ :: _ => None
      end
  | None => None
  end.

(** *** Vocabulary of the round-trip proof *)

(** The text of one member of an object. *)
Definition member_text (kv : jsstring * json) : jsstring :=
  QuoteJSONString (fst kv) ++ 58 :: stringify (snd kv).

(** What may follow a value in a JSON text: nothing, a comma, or a
    closing bracket or brace. *)
Definition delimited (rest : jsstring) : Prop :=
  match rest with
  | [] => True
  | c :: _ => c = 44 \/ c = 93 \/ c = 125
  end.

(** What [parse_string] returns once it has read the code unit [c]. *)
Definition after_unit (c : N) (s : jsstring) : option (jsstring * jsstring) :=
  match parse_string s with
  | Some (str, rest) => Some (c :: str, rest)
  | None => None
  end.

(** [v] reads back: its text, followed by anything that may follow a
    value, parses to [v] and leaves what followed, given fuel for the
    length of the text. *)
Definition reads_back (v : json) : Prop :=
  forall (fuel : nat) (rest : jsstring),
    (length (stringify v) <= fuel)%nat ->
    delimited rest ->
    parse_value fuel (stringify v ++ rest) = Some (v, rest).

End JSON.

(** ** 4. The application: state, task store, rendering, persistence *)

Module App.
Import JSON Number.

(** [{ id, text, completed, createdAt }], the object literal of [addTask]. *)
Record Task : Type := mkTask {
  id : Z;
  text : jsstring;
  completed : bool;
  createdAt : jsstring
}.

(** What the list element shows: the empty-state message or one row per
    task of the filtered array (the markup of a row is not modelled). *)
Inductive TaskListView : Type :=
| Blank
| EmptyState (emptyMsg : jsstring)
| TaskItems (rows : list Task).

(** The parts of the page the script reads or writes. *)
Record Dom : Type := mkDom {
  taskInput_value : jsstring;     (* taskInput.value *)
  taskList : TaskListView;        (* taskList.innerHTML and its children *)
  itemsLeftLabel : jsstring;      (* itemsLeftLabel.textContent *)
  percent : number;               (* progressBar width, progressText *)
  data_theme : jsstring           (* body[data-theme] *)
}.

Record State : Type := mkState {
  tasks : list Task;
  currentFilter : jsstring;
  localStorage : gmap jsstring jsstring;
  dom : Dom
}.

Definition with_tasks (ts : list Task) (st : State) : State :=
  mkState ts (currentFilter st) (localStorage st) (dom st).
Definition with_filter (f : jsstring) (st : State) : State :=
  mkState (tasks st) f (localStorage st) (dom st).
Definition with_storage (ls : gmap jsstring jsstring) (st : State) : State :=
  mkState (tasks st) (currentFilter st) ls (dom st).
Definition with_dom (d : Dom) (st : State) : State :=
  mkState (tasks st) (currentFilter st) (localStorage st) d.

(** [a === b] on strings. *)
Fixpoint strict_eq (a b : jsstring) : bool :=
  match a, b with
  | [], [] => true
  | x :: a', y :: b' => (x =? y) && strict_eq a' b'
  | _, _ => false
  end.

(** *** Persistence (sections 3 and 5 of the script) *)

Definition task_to_json (t : Task) : json :=
  JObj [ (js "id", JNum (id t));
         (js "text", JStr (text t));
         (js "completed", JBool (completed t));
         (js "createdAt", JStr (createdAt t)) ].

Definition tasks_to_json (ts : list Task) : json :=
  JArr (List.map task_to_json ts).

(** Reading property [k] of a parsed object: of several members with
    one name the last one is the property's value. *)
Fixpoint get_property (k : jsstring) (ms : list (jsstring * json)) : option json :=
  match ms with
  | [] => None
  | (k', v) :: rest =>
      match get_property k rest with
      | Some v' => Some v'
      | None => if strict_eq k' k then Some v else None
      end
  end.

(** The parsed value seen as tasks, through the four properties the
    script reads.  [None]: the stored value is not an array of such
    objects, which the typed state cannot hold. *)
Definition task_of_json (v : json) : option Task :=
  match v with
  | JObj ms =>
      match get_property (js "id") ms, get_property (js "text") ms,
            get_property (js "completed") ms, get_property (js "createdAt") ms with
      | Some (JNum i), Some (JStr t), Some (JBool c), Some (JStr d) =>
          Some (mkTask i t c d)
      | _, _, _, _ => None
      end
  | _ => None
  end.

Fixpoint tasks_of_json_list (vs : list json) : option (list Task) :=
  match vs with
  | [] => Some []
  | v :: rest =>
      match task_of_json v, tasks_of_json_list rest with
      | Some t, Some ts => Some (t :: ts)
      | _, _ => None
      end
  end.

Definition tasks_of_json (v : json) : option (list Task) :=
  match v with
  | JArr vs => tasks_of_json_list vs
  | _ => None
  end.

(** *** Rendering (section 6) *)

(** Step 1 of [renderTasks]: the filtered array. *)
Definition filteredTasks (filter_mode : jsstring) (ts : list Task) : list Task :=
  if strict_eq filter_mode (js "active") then
    List.filter (fun task => negb (completed task)) ts
  else if strict_eq filter_mode (js "completed") then
    List.filter (fun task => completed task) ts
  else ts.

(** The value of [percent] in [updateStats]. *)
Definition percentComplete (ts : list Task) : number :=
  let total := length ts in
  let completed := length (List.filter (fun t => completed t) ts) in
  if Nat.eqb total 0 then of_Z 0
  else Math_round (mul (div (of_nat completed) (of_nat total)) (of_Z 100)).

Definition updateStats (st : State) : State :=
  let activeCount := length (List.filter (fun t => negb (completed t)) (tasks st)) in
  let itemsText := if Nat.eqb activeCount 1 then js "item" else js "items" in
  let label :=
    Number_toString (Z.of_nat activeCount) ++ js " " ++ itemsText ++ js " left" in
  let d := dom st in
  with_dom (mkDom (taskInput_value d) (taskList d) label
                  (percentComplete (tasks st)) (data_theme d)) st.

Definition renderTasks (st : State) : State :=
  let filtered := filteredTasks (currentFilter st) (tasks st) in
  let view :=
    if Nat.eqb (length filtered) 0 then
      EmptyState
        (if strict_eq (currentFilter st) (js "completed")
         then js "No completed tasks yet."
         else if strict_eq (currentFilter st) (js "active")
         then js "No pending tasks! Great job."
         else js "No tasks yet. Start your journey!")
    else TaskItems filtered in
  let d := dom st in
  updateStats
    (with_dom (mkDom (taskInput_value d) view (itemsLeftLabel d)
                     (percent d) (data_theme d)) st).

Definition saveAndRender (st : State) : State :=
  renderTasks
    (with_storage
       (<[js "orbitTasks" := stringify (tasks_to_json (tasks st))]> (localStorage st))
       st).

(** *** The task store (section 4) *)

(** [addTask()].  [now] is the value of [Date.now()] and [today] the
    string of [new Date().toLocaleDateString()] at the call. *)
Definition addTask (now : Z) (today : jsstring) (st : State) : State :=
  let text := trim (taskInput_value (dom st)) in
  if is_empty text then st
  else
    let newTask := mkTask now text false today in
    let st' := saveAndRender (with_tasks (newTask :: tasks st) st) in
    let d := dom st' in
    with_dom (mkDom [] (taskList d) (itemsLeftLabel d) (percent d) (data_theme d)) st'.

Definition toggleTask (i : Z) (st : State) : State :=
  saveAndRender
    (with_tasks
       (List.map (fun task =>
                    if (id task =? i)%Z
                    then mkTask (id task) (text task) (negb (completed task)) (createdAt task)
                    else task)
                 (tasks st))
       st).

Definition deleteTask (i : Z) (st : State) : State :=
  saveAndRender
    (with_tasks (List.filter (fun task => negb (id task =? i)%Z) (tasks st)) st).

Definition editTask (i : Z) (newText : jsstring) (st : State) : State :=
  saveAndRender
    (with_tasks
       (List.map (fun task =>
                    if (id task =? i)%Z
                    then mkTask (id task) newText (completed task) (createdAt task)
                    else task)
                 (tasks st))
       st).

Definition clearCompleted (st : State) : State :=
  saveAndRender
    (with_tasks (List.filter (fun task => negb (completed task)) (tasks st)) st).

(** *** Helpers (section 7) *)

(** [saveEdit], the commit of an inline edit: the closure made by
    [enableEditMode (li, id, currentText)], run on Enter or blur with
    [value] the content of the edit field.  Its else-branch puts the
    row's own markup back, which is no part of [State]. *)
Definition saveEdit (i : Z) (value : jsstring) (st : State) : State :=
  let newText := trim value in
  if truthy newText then editTask i newText st
  else st.

Definition setTheme (themeName : jsstring) (st : State) : State :=
  let d := dom st in
  with_dom (mkDom (taskInput_value d) (taskList d) (itemsLeftLabel d)
                  (percent d) themeName)
    (with_storage (<[js "orbitTheme" := themeName]> (localStorage st)) st).

(** *** Initialisation (sections 2 and 3) *)

(** The state of a freshly loaded page over a given storage. *)
Definition fresh (storage : gmap jsstring jsstring) : State :=
  mkState [] (js "all") storage (mkDom [] Blank [] (of_Z 0) []).

(** The [DOMContentLoaded] handler.  [None]: [JSON.parse] threw, or the
    stored value is no task array. *)
Definition onDOMContentLoaded (st : State) : option State :=
  let savedTheme :=
    match localStorage st !! js "orbitTheme" with
    | Some s => if truthy s then s else js "ocean"
    | None => js "ocean"
    end in
  let st1 := setTheme savedTheme st in
  match localStorage st1 !! js "orbitTasks" with
  | Some savedTasks =>
      if truthy savedTasks then
        match JSON.parse savedTasks with
        | Some v =>
            match tasks_of_json v with
            | Some ts => Some (renderTasks (with_tasks ts st1))
            | None => None
            end
        | None => None
        end
      else Some (renderTasks st1)
  | None => Some (renderTasks st1)
  end.

(** The clicks on a filter button. *)
Definition setFilter (f : jsstring) (st : State) : State :=
  renderTasks (with_filter f st).

(** *** The events that reach the task store *)

(** The task-store operations as the specification lists them, each
    with its arguments. *)
Inductive StoreOp : Type :=
| OpAdd (now : Z) (today : jsstring)
| OpToggle (i : Z)
| OpEdit (i : Z) (newText : jsstring)
| OpRemove (i : Z)
| OpClearCompleted.

Definition run_op (op : StoreOp) (st : State) : State :=
  match op with
  | OpAdd now today => addTask now today st
  | OpToggle i => toggleTask i st
  | OpEdit i newText => editTask i newText st
  | OpRemove i => deleteTask i st
  | OpClearCompleted => clearCompleted st
  end.

(** The same store driven the way the page drives it: an edit arrives
    through [saveEdit]. *)
Inductive UiEvent : Type :=
| EvAdd (now : Z) (today : jsstring)
| EvToggle (i : Z)
| EvCommitEdit (i : Z) (value : jsstring)
| EvDelete (i : Z)
| EvClearCompleted.

Definition handle (ev : UiEvent) (st : State) : State :=
  match ev with
  | EvAdd now today => addTask now today st
  | EvToggle i => toggleTask i st
  | EvCommitEdit i value => saveEdit i value st
  | EvDelete i => deleteTask i st
  | EvClearCompleted => clearCompleted st
  end.

(** The text invariant of the data model: no task has an empty or
    white-space-only text. *)
Definition text_ok (t : Task) : Prop :=
  text t <> [] /\ whitespace_only (text t) = false.

Definition texts_ok (ts : list Task) : Prop := Forall text_ok ts.

(** The largest length an array can have. *)
Definition max_array_length : Z := 2 ^ 32 - 1.



(** *** Concrete states used as examples *)

(** A page that holds one task. *)
Definition one_task : State :=
  with_tasks [mkTask 1 (js "a") false (js "11/3/2026")] (fresh ∅).

(** The user types [value] into the input field. *)
Definition typed (value : jsstring) (st : State) : State :=
  let d := dom st in
  with_dom (mkDom value (taskList d) (itemsLeftLabel d) (percent d) (data_theme d)) st.

End App.

(** ** 4a. The rest of the page: escaping and the event wiring *)

Module Page.
Import JSON Number App.

(** *** [escapeHtml] (section 7) *)

(** The script sets [div.textContent = text] and reads [div.innerHTML]:
    the HTML serialisation of one text node, which replaces the
    ampersand, the no-break space and the two angle brackets by their
    character references and copies every other code unit. *)
Definition html_escape_unit (c : N) : jsstring :=
  if c =? 38 then js "&amp;"
  else if c =? 160 then js "&nbsp;"
  else if c =? 60 then js "&lt;"
  else if c =? 62 then js "&gt;"
  else [c].

Fixpoint escapeHtml (text : jsstring) : jsstring :=
  match text with
  | [] => []
  | c :: r => html_escape_unit c ++ escapeHtml r
  end.

(** *** The event listeners (section 8 and the listeners of a row) *)

(** What can happen to a loaded page: the user edits the input field,
    or one of the listeners the script has installed runs. *)
Inductive PageEvent : Type :=
| InputText (value : jsstring)              (* the user edits taskInput *)
| ClickAdd (now : Z) (today : jsstring)     (* addBtn click, Enter in taskInput *)
| ChangeCheckbox (i : Z)                    (* a row's checkbox *)
| ClickDelete (i : Z)                       (* a row's delete button *)
| CommitEdit (i : Z) (value : jsstring)     (* Enter or blur in a row's edit field *)
| ClickClearCompleted                       (* clearCompletedBtn *)
| ClickFilter (mode : jsstring)             (* a filter button, mode = dataset.filter *)
| ClickTheme (themeName : jsstring).        (* a theme button, dataset.theme *)

Definition dispatch (ev : PageEvent) (st : State) : State :=
  match ev with
  | InputText value => typed value st
  | ClickAdd now today => addTask now today st
  | ChangeCheckbox i => toggleTask i st
  | ClickDelete i => deleteTask i st
  | CommitEdit i value => saveEdit i value st
  | ClickClearCompleted => clearCompleted st
  | ClickFilter mode => setFilter mode st
  | ClickTheme themeName => setTheme themeName st
  end.

(** A session: the events in the order they happen. *)
Fixpoint run (evs : list PageEvent) (st : State) : State :=
  match evs with
  | [] => st
  | ev :: rest => run rest (dispatch ev st)
  end.

(** The theme a page load takes from a stored entry. *)
Definition theme_on_load (stored : option jsstring) : jsstring :=
  match stored with
  | Some s => if truthy s then s else js "ocean"
  | None => js "ocean"
  end.

(** Every text is what [trim] would make of it. *)
Definition texts_trimmed (ts : list Task) : Prop :=
  Forall (fun t => trim (text t) = text t) ts.

(** An integer that a Number holds exactly: at most 2^53 - 1 in
    magnitude, as every value of [Date.now()] is. *)
Definition safe_integer (z : Z) : Prop := (- (2 ^ 53 - 1) <= z <= 2 ^ 53 - 1)%Z.

Definition ids_safe (ts : list Task) : Prop :=
  Forall (fun t => safe_integer (id t)) ts.

(** The clock value of an addition is such an integer. *)
Definition clock_safe (ev : PageEvent) : Prop :=
  match ev with
  | ClickAdd now _ => safe_integer now
  | _ => True
  end.

(** The [orbitTasks] entry is what the page itself leaves there for the
    collection [ts]: nothing or the empty string when no task was ever
    saved, and otherwise the text [saveAndRender] writes. *)
Definition stored_collection (storage : gmap jsstring jsstring) (ts : list Task) : Prop :=
  (storage !! js "orbitTasks" = None /\ ts = []) \/
  (storage !! js "orbitTasks" = Some [] /\ ts = []) \/
  storage !! js "orbitTasks" = Some (stringify (tasks_to_json ts)).

(** How one event may change the list of ids. *)
Definition ids_step (ev : PageEvent) (before after : list Z) : Prop :=
  match ev with
  | ClickAdd now _ => after = before \/ after = now :: before
  | ClickDelete _ | ClickClearCompleted => sublist after before
  | _ => after = before
  end.

(** A reload would bring back the tasks of [st]. *)
Definition reload_restores (st : State) : Prop :=
  option_map tasks (onDOMContentLoaded (fresh (localStorage st))) = Some (tasks st).


(** The stored theme is the theme of the page. *)
Definition theme_stored (st : State) : Prop :=
  localStorage st !! js "orbitTheme" = Some (data_theme (dom st)).

End Page.

(** ** 5. Facts about [trim] *)

Section Trim.

Lemma trimStart_head (s : jsstring) :
  trimStart s = [] \/
  exists c r, trimStart s = c :: r /\ isWhiteSpace c = false.
Proof.
  induction s as [|c r IH]; simpl.
  - now left.
  - destruct (isWhiteSpace c) eqn:Hc; [exact IH|].
    right. exists c, r. split; [reflexivity|exact Hc].
Qed.

Lemma trimStart_nil_iff (s : jsstring) :
  trimStart s = [] <-> whitespace_only s = true.
Proof.
  unfold whitespace_only.
  induction s as [|c r IH]; simpl.
  - tauto.
  - destruct (isWhiteSpace c); simpl; [exact IH|].
    split; discriminate.
Qed.

Lemma whitespace_only_rev (s : jsstring) :
  whitespace_only (rev s) = whitespace_only s.
Proof.
  unfold whitespace_only.
  induction s as [|c r IH]; simpl; [reflexivity|].
  rewrite forallb_app, IH. simpl.
  rewrite andb_true_r. apply andb_comm.
Qed.

Lemma trimStart_whitespace_only (s : jsstring) :
  whitespace_only (trimStart s) = true -> trimStart s = [].
Proof.
  destruct (trimStart_head s) as [H|(c & r & H & Hc)]; [easy|].
  rewrite H. unfold whitespace_only. simpl. now rewrite Hc.
Qed.

(** [s.trim()] is the empty string exactly when [s] is white space only. *)
Lemma trim_nil_iff (s : jsstring) :
  trim s = [] <-> whitespace_only s = true.
Proof.
  unfold trim, trimEnd. split.
  - intros H.
    assert (H1 : trimStart (rev (trimStart s)) = []).
    { destruct (trimStart (rev (trimStart s))) as [|x l]; [reflexivity|].
      simpl in H. now destruct (rev l). }
    apply trimStart_nil_iff in H1.
    rewrite whitespace_only_rev in H1.
    apply trimStart_nil_iff. now apply trimStart_whitespace_only.
  - intros H. apply trimStart_nil_iff in H. now rewrite H.
Qed.

(** A non-empty result of [trim] is never white space only. *)
Lemma trim_not_whitespace_only (s : jsstring) :
  trim s <> [] -> whitespace_only (trim s) = false.
Proof.
  intros Hne. unfold trim, trimEnd in *.
  rewrite whitespace_only_rev.
  destruct (trimStart_head (rev (trimStart s))) as [H|(c & r & H & Hc)].
  - rewrite H in Hne. now elim Hne.
  - rewrite H. unfold whitespace_only. simpl. now rewrite Hc.
Qed.

Example trim_inner_spaces : trim (js "  Buy  milk ") = js "Buy  milk".
Proof. reflexivity. Qed.

Example trim_unicode_spaces : trim (160 :: 8203 :: 12288 :: [10]) = [8203].
Proof. reflexivity. Qed.

Lemma is_empty_true (s : jsstring) : is_empty s = true <-> s = [].
Proof. destruct s; simpl; split; congruence. Qed.

Lemma truthy_false (s : jsstring) : truthy s = false <-> s = [].
Proof. destruct s; unfold truthy; simpl; split; congruence. Qed.

End Trim.

(** ** 6. The task store *)

Section Store.
Import App.

Implicit Types (st : State) (ts : list Task) (t : Task) (i : Z).

(** Saving and rendering never touch the task array. *)
Lemma tasks_updateStats st : tasks (updateStats st) = tasks st.
Proof. reflexivity. Qed.

Lemma tasks_renderTasks st : tasks (renderTasks st) = tasks st.
Proof. reflexivity. Qed.

Lemma tasks_saveAndRender st : tasks (saveAndRender st) = tasks st.
Proof. reflexivity. Qed.

Lemma tasks_toggleTask i st :
  tasks (toggleTask i st) =
  List.map (fun task =>
              if (id task =? i)%Z
              then mkTask (id task) (text task) (negb (completed task)) (createdAt task)
              else task) (tasks st).
Proof. reflexivity. Qed.

Lemma tasks_editTask i newText st :
  tasks (editTask i newText st) =
  List.map (fun task =>
              if (id task =? i)%Z
              then mkTask (id task) newText (completed task) (createdAt task)
              else task) (tasks st).
Proof. reflexivity. Qed.

Lemma tasks_deleteTask i st :
  tasks (deleteTask i st) = List.filter (fun task => negb (id task =? i)%Z) (tasks st).
Proof. reflexivity. Qed.

Lemma tasks_clearCompleted st :
  tasks (clearCompleted st) = List.filter (fun task => negb (completed task)) (tasks st).
Proof. reflexivity. Qed.

Lemma tasks_addTask now today st :
  tasks (addTask now today st) =
  if is_empty (trim (taskInput_value (dom st))) then tasks st
  else mkTask now (trim (taskInput_value (dom st))) false today :: tasks st.
Proof.
  unfold addTask. now destruct (is_empty (trim (taskInput_value (dom st)))).
Qed.

Lemma strict_eq_iff (a b : jsstring) : strict_eq a b = true <-> a = b.
Proof.
  revert b. induction a as [|x a IH]; intros [|y b]; simpl; try easy.
  rewrite andb_true_iff, N.eqb_eq, IH.
  split; [intros [-> ->]; reflexivity | intros [= -> ->]; auto].
Qed.

Lemma strict_eq_false_iff (a b : jsstring) : strict_eq a b = false <-> a <> b.
Proof.
  rewrite <- strict_eq_iff. destruct (strict_eq a b); split; congruence.
Qed.

End Store.

(** ** 7. Properties of the task store *)

Section StoreProperties.
Import App.

Implicit Types (st : State) (ts : list Task) (t : Task) (i : Z).

(** C1, as stated, fails: [editTask] has no guard of its own.  Called
    with the empty string on a collection that holds a task with that
    id, it stores the empty string as the task's text. *)
Lemma editTask_blank_overwrites :
  trim (js "") = [] /\
  (exists t, In t (tasks one_task) /\ id t = 1%Z /\ text t = js "a") /\
  tasks (editTask 1 (js "") one_task)
    = [mkTask 1 [] false (js "11/3/2026")] /\
  tasks (editTask 1 (js "") one_task) <> tasks one_task.
Proof.
  split; [reflexivity|]. split.
  - eexists. split; [left; reflexivity|]. split; reflexivity.
  - split; [reflexivity|]. discriminate.
Qed.

(** C1, amended: the guard on a blank edit sits in [saveEdit], the commit
    step of the inline edit.  Given a field value whose trim is empty it
    does not call [editTask]: the state, hence the collection and every
    task's text, is what it was before. *)
Theorem saveEdit_blank_abandons i (value : jsstring) st :
  trim value = [] ->
  saveEdit i value st = st /\
  tasks (saveEdit i value st) = tasks st /\
  (forall t, In t (tasks st) -> id t = i -> In t (tasks (saveEdit i value st))).
Proof.
  intros Hblank.
  assert (E : saveEdit i value st = st).
  { unfold saveEdit. apply truthy_false in Hblank. now rewrite Hblank. }
  rewrite E. auto.
Qed.

Lemma saveEdit_blank_abandons_witness :
  trim (js "   ") = [] /\
  saveEdit 1 (js "   ") one_task = one_task.
Proof.
  split; [reflexivity|].
  apply (saveEdit_blank_abandons 1 (js "   ") one_task). reflexivity.
Defined.

(** C3: with an input whose trim is not empty, [addTask] puts one new
    task in front of the collection: its text is the trimmed input, it is
    not completed, and the tasks behind it are the previous collection. *)
Theorem addTask_prepends now today st :
  trim (taskInput_value (dom st)) <> [] ->
  length (tasks (addTask now today st)) = S (length (tasks st)) /\
  exists newTask,
    tasks (addTask now today st) = newTask :: tasks st /\
    text newTask = trim (taskInput_value (dom st)) /\
    completed newTask = false /\
    id newTask = now /\
    createdAt newTask = today.
Proof.
  intros Hne. rewrite tasks_addTask.
  destruct (is_empty (trim (taskInput_value (dom st)))) eqn:E.
  - apply is_empty_true in E. contradiction.
  - split; [reflexivity|]. eexists. split; [reflexivity|]. now simpl.
Qed.

Lemma addTask_prepends_witness :
  trim (taskInput_value (dom (typed (js " Buy milk ") one_task))) <> [] /\
  tasks (addTask 2 (js "11/4/2026") (typed (js " Buy milk ") one_task))
  = [mkTask 2 (js "Buy milk") false (js "11/4/2026");
     mkTask 1 (js "a") false (js "11/3/2026")].
Proof.
  split; [discriminate|].
  destruct (addTask_prepends 2 (js "11/4/2026") (typed (js " Buy milk ") one_task))
    as [_ (t & -> & Ht & Hc & Hi & Hd)]; [discriminate|].
  destruct t as [ti tt tc td]. simpl in Ht, Hc, Hi, Hd. subst.
  reflexivity.
Defined.

(** C4: with an empty or white-space-only input, [addTask] returns at
    once: the collection, and the whole state, are unchanged. *)
Theorem addTask_blank_noop now today st :
  whitespace_only (taskInput_value (dom st)) = true ->
  addTask now today st = st /\ tasks (addTask now today st) = tasks st.
Proof.
  intros Hws. apply trim_nil_iff in Hws.
  assert (E : addTask now today st = st).
  { unfold addTask. now rewrite Hws. }
  now rewrite E.
Qed.

Lemma addTask_blank_noop_witness :
  whitespace_only (taskInput_value (dom (typed (js "  ") one_task))) = true /\
  addTask 2 (js "11/4/2026") (typed (js "  ") one_task) = typed (js "  ") one_task.
Proof.
  split; [reflexivity|].
  apply (addTask_blank_noop 2 (js "11/4/2026") (typed (js "  ") one_task)).
  reflexivity.
Defined.

(** *** The text invariant *)

Lemma texts_ok_filter (f : Task -> bool) ts :
  texts_ok ts -> texts_ok (List.filter f ts).
Proof.
  unfold texts_ok. rewrite !List.Forall_forall.
  intros H t Ht. apply filter_In in Ht. apply H, Ht.
Qed.

Lemma texts_ok_toggle i ts :
  texts_ok ts ->
  texts_ok (List.map (fun task =>
              if (id task =? i)%Z
              then mkTask (id task) (text task) (negb (completed task)) (createdAt task)
              else task) ts).
Proof.
  unfold texts_ok. induction 1 as [|t ts Ht Hts IH]; simpl; constructor; auto.
  destruct (id t =? i)%Z; auto.
Qed.

Lemma texts_ok_edit i (newText : jsstring) ts :
  whitespace_only newText = false ->
  texts_ok ts ->
  texts_ok (List.map (fun task =>
              if (id task =? i)%Z
              then mkTask (id task) newText (completed task) (createdAt task)
              else task) ts).
Proof.
  intros Hnew. unfold texts_ok.
  induction 1 as [|t ts Ht Hts IH]; simpl; constructor; auto.
  destruct (id t =? i)%Z; auto.
  split; simpl; [|exact Hnew]. intros ->. discriminate.
Qed.

Lemma text_ok_trim now (value : jsstring) c d :
  trim value <> [] -> text_ok (mkTask now (trim value) c d).
Proof.
  intros Hne. split; simpl; [exact Hne|]. now apply trim_not_whitespace_only.
Qed.

Lemma texts_ok_addTask now today st :
  texts_ok (tasks st) -> texts_ok (tasks (addTask now today st)).
Proof.
  intros H. rewrite tasks_addTask.
  destruct (is_empty (trim (taskInput_value (dom st)))) eqn:E; [exact H|].
  constructor; [|exact H].
  apply text_ok_trim. intros Hnil. apply is_empty_true in Hnil. congruence.
Qed.

Lemma texts_ok_saveEdit i (value : jsstring) st :
  texts_ok (tasks st) -> texts_ok (tasks (saveEdit i value st)).
Proof.
  intros H. unfold saveEdit.
  destruct (truthy (trim value)) eqn:E; [|exact H].
  rewrite tasks_editTask. apply texts_ok_edit; [|exact H].
  apply trim_not_whitespace_only. intros Hnil.
  apply truthy_false in Hnil. congruence.
Qed.

(** C2, as stated, fails: the store's [editTask], called with a blank
    string, takes a collection that satisfies the text invariant to one
    that does not. *)
Lemma editTask_breaks_text_invariant :
  ~ (forall (op : StoreOp) st,
        texts_ok (tasks st) -> texts_ok (tasks (run_op op st))).
Proof.
  intros H.
  assert (Hok : texts_ok (tasks one_task)).
  { constructor; [|constructor]. split; [discriminate|reflexivity]. }
  specialize (H (OpEdit 1 (js " ")) one_task Hok).
  inversion H as [|t ts [_ Hws] _]; subst. discriminate Hws.
Qed.

(** C2, amended: the text invariant is preserved by every event the
    page sends to the store (add, toggle, delete, clear completed with
    any arguments, and an edit committed through [saveEdit] with any id
    and field value) and by [editTask] itself whenever the text it is
    given is not white space only. *)
Theorem text_invariant_preserved st :
  texts_ok (tasks st) ->
  (forall ev : UiEvent, texts_ok (tasks (handle ev st))) /\
  (forall op : StoreOp,
      (forall i newText, op = OpEdit i newText -> whitespace_only newText = false) ->
      texts_ok (tasks (run_op op st))).
Proof.
  intros Hok. split.
  - intros [now today|i|i value|i|]; cbn [handle].
    + now apply texts_ok_addTask.
    + rewrite tasks_toggleTask. now apply texts_ok_toggle.
    + now apply texts_ok_saveEdit.
    + rewrite tasks_deleteTask. now apply texts_ok_filter.
    + rewrite tasks_clearCompleted. now apply texts_ok_filter.
  - intros [now today|i|i newText|i|] Hedit; cbn [run_op].
    + now apply texts_ok_addTask.
    + rewrite tasks_toggleTask. now apply texts_ok_toggle.
    + rewrite tasks_editTask. apply texts_ok_edit; [|exact Hok].
      now apply (Hedit i newText).
    + rewrite tasks_deleteTask. now apply texts_ok_filter.
    + rewrite tasks_clearCompleted. now apply texts_ok_filter.
Qed.

Lemma text_invariant_preserved_witness :
  texts_ok (tasks one_task) /\
  texts_ok (tasks (handle (EvCommitEdit 1 (js " ")) one_task)) /\
  texts_ok (tasks (run_op (OpEdit 1 (js "b")) one_task)).
Proof.
  assert (Hok : texts_ok (tasks one_task)).
  { constructor; [|constructor]. split; [discriminate|reflexivity]. }
  split; [exact Hok|].
  destruct (text_invariant_preserved one_task Hok) as [Hev Hop].
  split; [apply Hev|].
  apply Hop. intros i newText [= _ <-]. reflexivity.
Defined.

(** *** Toggling *)

Lemma toggle_twice i t :
  (fun task =>
     if (id task =? i)%Z
     then mkTask (id task) (text task) (negb (completed task)) (createdAt task)
     else task)
    ((fun task =>
        if (id task =? i)%Z
        then mkTask (id task) (text task) (negb (completed task)) (createdAt task)
        else task) t) = t.
Proof.
  cbv beta. destruct (id t =? i)%Z eqn:E; simpl; rewrite E.
  - rewrite negb_involutive. now destruct t.
  - reflexivity.
Qed.

(** C5: toggling the same id twice gives back the collection it started
    from, every field of every task included. *)
Theorem toggleTask_involution i st :
  tasks (toggleTask i (toggleTask i st)) = tasks st.
Proof.
  rewrite !tasks_toggleTask. rewrite List.map_map.
  rewrite <- (List.map_id (tasks st)) at 2.
  apply List.map_ext. intros t. apply (toggle_twice i t).
Qed.

(** C8: [toggleTask i] keeps the number of tasks and their order; at
    every position the task keeps its id, text and creation date, and
    keeps its completed flag too unless its id is [i]. *)
Theorem toggleTask_frame i st :
  length (tasks (toggleTask i st)) = length (tasks st) /\
  List.map id (tasks (toggleTask i st)) = List.map id (tasks st) /\
  forall k t,
    nth_error (tasks st) k = Some t ->
    exists t',
      nth_error (tasks (toggleTask i st)) k = Some t' /\
      id t' = id t /\ text t' = text t /\ createdAt t' = createdAt t /\
      (id t <> i -> completed t' = completed t /\ t' = t).
Proof.
  rewrite tasks_toggleTask. split; [apply List.length_map|]. split.
  - rewrite List.map_map. apply List.map_ext.
    intros t. now destruct (id t =? i)%Z.
  - intros k t Hk. rewrite nth_error_map, Hk. simpl.
    eexists. split; [reflexivity|].
    destruct (id t =? i)%Z eqn:E; simpl.
    + apply Z.eqb_eq in E.
      split; [reflexivity|]. split; [reflexivity|]. split; [reflexivity|].
      intros Hne. contradiction.
    + repeat split; reflexivity.
Qed.

End StoreProperties.

(** ** 8. The view filter *)

Section ViewFilter.
Import App.

Lemma filter_split_perm (f : Task -> bool) (ts : list Task) :
  Permutation ts (List.filter (fun t => negb (f t)) ts ++ List.filter f ts).
Proof.
  induction ts as [|t ts IH]; simpl; [constructor|].
  destruct (f t); simpl.
  - now apply Permutation_cons_app.
  - now constructor.
Qed.

(** C6: the 'active' and the 'completed' results of the view filter
    split the collection: the first holds exactly the tasks whose flag is
    false, the second exactly those whose flag is true, a task of the
    collection is in one of them and not in the other, and together
    they hold every task as often as the collection does. *)
Theorem active_completed_partition (ts : list Task) :
  let active := filteredTasks (js "active") ts in
  let done := filteredTasks (js "completed") ts in
  (forall t, In t active <-> In t ts /\ completed t = false) /\
  (forall t, In t done <-> In t ts /\ completed t = true) /\
  (forall t, In t ts ->
      (In t active /\ ~ In t done) \/ (In t done /\ ~ In t active)) /\
  (forall t, ~ (In t active /\ In t done)) /\
  Permutation ts (active ++ done) /\
  length ts = (length active + length done)%nat.
Proof.
  intros active done. subst active done.
  change (filteredTasks (js "active") ts)
    with (List.filter (fun task => negb (completed task)) ts).
  change (filteredTasks (js "completed") ts)
    with (List.filter (fun task => completed task) ts).
  assert (Ha : forall t, In t (List.filter (fun task => negb (completed task)) ts)
                         <-> In t ts /\ completed t = false).
  { intros t. rewrite filter_In, negb_true_iff. tauto. }
  assert (Hd : forall t, In t (List.filter (fun task => completed task) ts)
                         <-> In t ts /\ completed t = true).
  { intros t. now rewrite filter_In. }
  assert (Hp := filter_split_perm completed ts).
  split; [exact Ha|]. split; [exact Hd|].
  split; [|split; [|split; [exact Hp|]]].
  - intros t Ht. rewrite Ha, Hd.
    destruct (completed t); [right|left]; split; auto; intros [_ ?]; discriminate.
  - intros t. rewrite Ha, Hd. intros [[_ H1] [_ H2]]. congruence.
  - rewrite <- List.length_app. now apply Permutation_length.
Qed.

(** C10: under any filter mode other than 'active' and 'completed'
    ('all' and every unknown string) the filter step hands the whole
    collection through, in its order. *)
Theorem filteredTasks_other_mode (mode : jsstring) (ts : list Task) :
  mode <> js "active" ->
  mode <> js "completed" ->
  filteredTasks mode ts = ts.
Proof.
  intros Ha Hc. unfold filteredTasks.
  apply strict_eq_false_iff in Ha, Hc. now rewrite Ha, Hc.
Qed.

Lemma filteredTasks_other_mode_witness :
  js "all" <> js "active" /\ js "all" <> js "completed" /\
  filteredTasks (js "all") (tasks one_task) = tasks one_task /\
  filteredTasks (js "bogus") (tasks one_task) = tasks one_task.
Proof.
  split; [discriminate|]. split; [discriminate|].
  split; apply filteredTasks_other_mode; discriminate.
Defined.

End ViewFilter.

(** ** 9. Binary64 facts behind the completion percentage *)

Section Binary64.
Import Number.
Local Open Scope Z_scope.

Lemma digits2_pos_size (p : positive) : digits2_pos p = Pos.size p.
Proof. induction p; simpl; congruence. Qed.

Lemma digits2_pos_iter_xO (k p : positive) :
  digits2_pos (Pos.iter xO p k) = (digits2_pos p + k)%positive.
Proof.
  induction k as [|k IH] using Pos.peano_ind.
  - simpl. lia.
  - rewrite Pos.iter_succ. simpl. rewrite IH. lia.
Qed.

Lemma digits2_pos_le_53 (p : positive) :
  Zpos p < 2 ^ 53 -> Zpos (digits2_pos p) <= 53.
Proof.
  intros Hp. rewrite digits2_pos_size.
  destruct (Z.le_gt_cases (Zpos (Pos.size p)) 53) as [H|H]; [exact H|].
  exfalso.
  pose proof (Pos.size_le p) as Hle.
  apply Pos2Z.pos_le_pos in Hle. rewrite Pos2Z.inj_pow in Hle.
  assert (Hpow : 2 ^ 54 <= 2 ^ Zpos (Pos.size p)).
  { apply Z.pow_le_mono_r; lia. }
  change (2 ^ 54) with (2 * 2 ^ 53) in Hpow. lia.
Qed.

(** A mantissa of 53 bits with an exponent in range is already in
    normal form: rounding it exactly returns it. *)
Lemma binary_round_aux_normal (s : bool) (m : positive) (e : Z) :
  Zpos (digits2_pos m) = 53 ->
  -1074 <= e <= 971 ->
  binary_round_aux prec emax s (Zpos m) e loc_Exact = S754_finite s m e.
Proof.
  intros Hd He.
  assert (Hshr : shr_fexp prec emax (Zpos m) e loc_Exact
                 = (Build_shr_record (Zpos m) false false, e)).
  { unfold shr_fexp. cbn [Zdigits2 shr_record_of_loc]. rewrite Hd.
    replace (fexp prec emax (53 + e) - e) with 0
      by (unfold fexp, emin, prec, emax; lia).
    reflexivity. }
  unfold binary_round_aux. rewrite Hshr.
  cbn [shr_m loc_of_shr_record round_nearest_even]. rewrite Hshr.
  cbn [shr_m].
  replace (e <=? emax - prec) with true; [reflexivity|].
  symmetry. apply Z.leb_le. unfold emax, prec. lia.
Qed.

(** A positive integer below 2^53 is a finite, positive Number. *)
Lemma of_Z_finite (p : positive) :
  Zpos p < 2 ^ 53 ->
  exists m e, of_Z (Zpos p) = S754_finite false m e.
Proof.
  intros Hp. pose proof (digits2_pos_le_53 p Hp) as Hd.
  unfold of_Z, binary_normalize, binary_round.
  assert (Hfexp : fexp prec emax (Zpos (digits2_pos p) + 0)
                  = Zpos (digits2_pos p) - 53).
  { unfold fexp, emin, prec, emax. lia. }
  rewrite Hfexp. unfold shl_align.
  destruct (Zpos (digits2_pos p) - 53 - 0) as [|k|k] eqn:Hk; try lia.
  - exists p, 0. apply binary_round_aux_normal; lia.
  - exists (Pos.iter xO p k), (Zpos (digits2_pos p) - 53).
    apply binary_round_aux_normal; [|lia].
    rewrite digits2_pos_iter_xO. lia.
Qed.


End Binary64.

(** ** 9a. Rounding: how far a quotient and a product are from exact *)

Section Rounding.
Import Number.
Local Open Scope Z_scope.











End Rounding.

Section RoundingZ.
Import Number.
Local Open Scope Z_scope.







End RoundingZ.

Section RoundingR.
Import Number App.
Local Open Scope R_scope.













End RoundingR.

(** ** 10. [JSON.parse] undoes [JSON.stringify] *)

Section JsonRoundTrip.
Import JSON.

(** *** Numerals *)

Lemma read_digits_uint_chars (u : Decimal.uint) (rest : jsstring) :
  match rest with [] => True | c :: _ => is_digit c = false end ->
  read_digits (uint_chars u ++ rest) = (u, rest).
Proof.
  intros Hrest.
  induction u as [|u IH|u IH|u IH|u IH|u IH|u IH|u IH|u IH|u IH|u IH];
    simpl; try (rewrite IH; reflexivity).
  destruct rest as [|c r]; [reflexivity|]. simpl. now rewrite Hrest.
Qed.

Lemma to_uint_normal (p : positive) :
  Pos.to_uint p <> Decimal.Nil /\ forall u, Pos.to_uint p <> Decimal.D0 u.
Proof.
  split; [apply DecimalPos.Unsigned.to_uint_nonnil|].
  intros u Hu.
  pose proof (DecimalPos.Unsigned.to_of (Pos.to_uint p)) as H.
  rewrite DecimalPos.Unsigned.of_to in H. simpl in H.
  unfold Decimal.unorm in H.
  destruct (Decimal.nzhead (Pos.to_uint p)) eqn:E;
    rewrite Hu in H; try discriminate.
  - injection H as ->. apply (DecimalPos.Unsigned.to_uint_nonzero p). exact Hu.
  - rewrite Hu in E. apply (nzhead_nonzero _ _ E).
Qed.

Lemma delimited_not_digit rest :
  delimited rest -> match rest with [] => True | c :: _ => is_digit c = false end.
Proof. destruct rest as [|c r]; [easy|]. now intros [-> | [-> | ->]]. Qed.

Lemma finish_number_delimited u rest :
  delimited rest -> finish_number u rest = Some (N.of_uint u, rest).
Proof. destruct rest as [|c r]; [easy|]. now intros [-> | [-> | ->]]. Qed.

Lemma parse_digits_pos (p : positive) (rest : jsstring) :
  delimited rest ->
  parse_digits (uint_chars (Pos.to_uint p) ++ rest) = Some (Npos p, rest).
Proof.
  intros Hrest. unfold parse_digits.
  rewrite read_digits_uint_chars by now apply delimited_not_digit.
  destruct (to_uint_normal p) as [Hnil Hzero].
  assert (Hval : N.of_uint (Pos.to_uint p) = Npos p) by apply DecimalPos.Unsigned.of_to.
  destruct (Pos.to_uint p) eqn:E; try congruence;
    try (rewrite finish_number_delimited by assumption; now rewrite Hval).
Qed.

Lemma uint_chars_head (p : positive) :
  exists c r, uint_chars (Pos.to_uint p) = c :: r /\ 49 <= c <= 57.
Proof.
  destruct (to_uint_normal p) as [Hnil Hzero].
  destruct (Pos.to_uint p) eqn:E; try congruence; try (now elim (Hzero u));
    simpl; eexists _, _; (split; [reflexivity|lia]).
Qed.

(** *** String literals *)

Lemma hexval_hexdig (d : N) : d < 16 -> hexval (hexdig d) = Some d.
Proof.
  intros Hd. destruct d as [|p]; [reflexivity|].
  do 4 (destruct p as [p|p|]; try reflexivity; try (exfalso; lia)).
Qed.

Lemma hex4_value (c : N) :
  c < 65536 ->
  c / 4096 mod 16 * 4096 + c / 256 mod 16 * 256 + c / 16 mod 16 * 16 + c mod 16 = c.
Proof.
  intros Hc. zify. Z.to_euclidean_division_equations. lia.
Qed.

Lemma parse_unicode_escape (c : N) (s : jsstring) :
  c < 65536 ->
  parse_string (unicode_escape c ++ s) = after_unit c s.
Proof.
  intros Hc. unfold unicode_escape, after_unit.
  cbn [app parse_string].
  change (92 =? 34) with false. change (92 =? 92) with true.
  change (117 =? 117) with true. cbv iota.
  rewrite !hexval_hexdig by (apply N.mod_lt; lia).
  rewrite hex4_value by exact Hc. reflexivity.
Qed.

Lemma parse_literal_unit (c : N) (s : jsstring) :
  (c =? 34) = false -> (c =? 92) = false -> (c <? 32) = false ->
  parse_string (c :: s) = after_unit c s.
Proof.
  intros H1 H2 H3. unfold after_unit. cbn [parse_string].
  now rewrite H1, H2, H3.
Qed.

Lemma parse_escape_unit (c : N) (s : jsstring) :
  parse_string (escape_unit c ++ s) = after_unit c s.
Proof.
  unfold escape_unit.
  destruct (c =? 8) eqn:E8; [apply N.eqb_eq in E8; subst; reflexivity|].
  destruct (c =? 9) eqn:E9; [apply N.eqb_eq in E9; subst; reflexivity|].
  destruct (c =? 10) eqn:E10; [apply N.eqb_eq in E10; subst; reflexivity|].
  destruct (c =? 12) eqn:E12; [apply N.eqb_eq in E12; subst; reflexivity|].
  destruct (c =? 13) eqn:E13; [apply N.eqb_eq in E13; subst; reflexivity|].
  destruct (c =? 34) eqn:E34; [apply N.eqb_eq in E34; subst; reflexivity|].
  destruct (c =? 92) eqn:E92; [apply N.eqb_eq in E92; subst; reflexivity|].
  destruct ((c <? 32) || is_lead_surrogate c || is_trail_surrogate c) eqn:Esc.
  - apply parse_unicode_escape.
    unfold is_lead_surrogate, is_trail_surrogate in Esc.
    apply orb_true_iff in Esc as [Esc|Esc];
      [apply orb_true_iff in Esc as [Esc|Esc]|].
    + apply N.ltb_lt in Esc. lia.
    + apply andb_true_iff in Esc as [_ Esc]. apply N.leb_le in Esc. lia.
    + apply andb_true_iff in Esc as [_ Esc]. apply N.leb_le in Esc. lia.
  - apply orb_false_iff in Esc as [Esc _].
    apply orb_false_iff in Esc as [Esc _].
    now apply parse_literal_unit.
Qed.

Lemma parse_surrogate_unit (c : N) (s : jsstring) :
  55296 <= c -> parse_string (c :: s) = after_unit c s.
Proof.
  intros Hc. apply parse_literal_unit.
  - apply N.eqb_neq. lia.
  - apply N.eqb_neq. lia.
  - apply N.ltb_ge. lia.
Qed.

Lemma parse_string_quote_units_bounded (n : nat) :
  forall (s rest : jsstring),
    (length s <= n)%nat ->
    parse_string (quote_units s ++ 34 :: rest) = Some (s, rest).
Proof.
  induction n as [|n IH]; intros s rest Hlen.
  - destruct s; [reflexivity|simpl in Hlen; lia].
  - destruct s as [|c r]; [reflexivity|]. simpl in Hlen.
    cbn [quote_units].
    destruct (is_lead_surrogate c) eqn:Elead.
    + assert (Hc : 55296 <= c <= 56319).
      { unfold is_lead_surrogate in Elead.
        apply andb_true_iff in Elead as [H1 H2].
        apply N.leb_le in H1, H2. lia. }
      destruct r as [|d r'].
      * rewrite parse_unicode_escape by lia. reflexivity.
      * destruct (is_trail_surrogate d) eqn:Etrail.
        -- assert (Hd : 56320 <= d).
           { unfold is_trail_surrogate in Etrail.
             apply andb_true_iff in Etrail as [H1 _]. now apply N.leb_le in H1. }
           cbn [app].
           rewrite parse_surrogate_unit by lia. unfold after_unit.
           rewrite parse_surrogate_unit by lia. unfold after_unit.
           rewrite IH by (simpl in Hlen; lia). reflexivity.
        -- rewrite <- app_assoc.
           rewrite parse_unicode_escape by lia. unfold after_unit.
           rewrite IH by lia. reflexivity.
    + rewrite <- app_assoc. rewrite parse_escape_unit. unfold after_unit.
      rewrite IH by lia. reflexivity.
Qed.

(** A quoted string reads back as the string that was quoted. *)
Lemma parse_string_quote (s rest : jsstring) :
  parse_string (quote_units s ++ 34 :: rest) = Some (s, rest).
Proof. now apply (parse_string_quote_units_bounded (length s)). Qed.

(** *** Values *)

Lemma json_induction (P : json -> Prop)
      (Hnull : P JNull)
      (Hbool : forall b, P (JBool b))
      (Hnum : forall n, P (JNum n))
      (Hstr : forall s, P (JStr s))
      (Harr : forall vs, Forall P vs -> P (JArr vs))
      (Hobj : forall ms, Forall (fun kv => P (snd kv)) ms -> P (JObj ms)) :
  forall v, P v.
Proof.
  fix IH 1. intros [|b|n|s|vs|ms].
  - exact Hnull.
  - apply Hbool.
  - apply Hnum.
  - apply Hstr.
  - apply Harr. induction vs as [|v vs IHvs]; constructor; [apply IH|exact IHvs].
  - apply Hobj. induction ms as [|[k v] ms IHms]; constructor; [apply IH|exact IHms].
Qed.

(** Decide a comparison of a code unit with a constant from the bounds
    in the context. *)
Ltac unit_tests :=
  repeat match goal with
         | |- context [?c =? ?k] =>
             first [ rewrite (proj2 (N.eqb_neq c k)) by lia
                   | rewrite (proj2 (N.eqb_eq c k)) by lia ]
         end.

Lemma parse_value_scalar (fuel : nat) (c : N) (r : jsstring) :
  is_json_ws c = false -> c <> 91 -> c <> 123 ->
  parse_value (S fuel) (c :: r) = parse_scalar (c :: r).
Proof.
  intros Hws H1 H2. cbn [parse_value skip_ws]. rewrite Hws.
  cbn [starts_with]. now unit_tests.
Qed.

Lemma parse_scalar_number (c : N) (r : jsstring) :
  c = 45 \/ 48 <= c <= 57 ->
  parse_scalar (c :: r) = parse_number (c :: r).
Proof.
  intros Hc. unfold parse_scalar. cbn [starts_with js strip_prefix
    list_ascii_of_string List.map N_of_ascii].
  destruct Hc as [->|Hc]; [reflexivity|].
  cbn. now unit_tests.
Qed.

Lemma parse_value_number (fuel : nat) (n : Z) (rest : jsstring) :
  delimited rest ->
  parse_value (S fuel) (Number_toString n ++ rest) = Some (JNum n, rest).
Proof.
  intros Hrest. destruct n as [|p|p]; cbn [Number_toString].
  - cbn [app]. rewrite parse_value_scalar by (reflexivity || lia).
    rewrite parse_scalar_number by lia.
    cbn [parse_number]. change (48 =? 45) with false. cbv iota.
    unfold parse_digits.
    change (48 :: rest) with (uint_chars (Decimal.D0 Decimal.Nil) ++ rest).
    rewrite read_digits_uint_chars by now apply delimited_not_digit.
    now rewrite finish_number_delimited.
  - pose proof (parse_digits_pos p rest Hrest) as Hp.
    destruct (uint_chars_head p) as (c & r & E & Hc).
    rewrite E in Hp |- *. cbn [app] in Hp |- *.
    rewrite parse_value_scalar; [|unfold is_json_ws; now unit_tests|lia|lia].
    rewrite parse_scalar_number by lia.
    cbn [parse_number]. rewrite (proj2 (N.eqb_neq c 45)) by lia.
    now rewrite Hp.
  - cbn [app]. rewrite parse_value_scalar by (reflexivity || lia).
    rewrite parse_scalar_number by lia.
    cbn [parse_number]. change (45 =? 45) with true. cbv iota.
    now rewrite parse_digits_pos.
Qed.

Lemma parse_value_string (fuel : nat) (s rest : jsstring) :
  parse_value (S fuel) (QuoteJSONString s ++ rest) = Some (JStr s, rest).
Proof.
  unfold QuoteJSONString. cbn [app]. rewrite <- app_assoc. cbn [app].
  rewrite parse_value_scalar by (reflexivity || lia).
  unfold parse_scalar. cbn [starts_with]. change (34 =? 34) with true.
  cbv iota. now rewrite parse_string_quote.
Qed.

(** The first code unit of a serialised value opens a value: it is no
    white space, no comma and no closing bracket. *)
Lemma stringify_head (v : json) :
  exists c r, stringify v = c :: r /\
              is_json_ws c = false /\ c <> 93 /\ c <> 125 /\ c <> 44.
Proof.
  destruct v as [|[|]|[|p|p]|s|vs|ms]; cbn [stringify Number_toString];
    try (eexists _, _; split; [reflexivity|];
         split; [reflexivity|]; repeat split; discriminate).
  destruct (uint_chars_head p) as (c & r & E & Hc).
  exists c, r. split; [exact E|].
  split; [unfold is_json_ws; now unit_tests|]. lia.
Qed.

Lemma stringify_length_pos (v : json) : (0 < length (stringify v))%nat.
Proof.
  destruct (stringify_head v) as (c & r & -> & _). simpl. lia.
Qed.

Lemma join_comma_cons (p q : jsstring) (parts : list jsstring) :
  join_comma (p :: q :: parts) = p ++ 44 :: join_comma (q :: parts).
Proof. reflexivity. Qed.

Lemma parse_elements_join (vs : list json) :
  Forall reads_back vs ->
  vs <> [] ->
  forall (fuel : nat) (rest : jsstring),
    (length (join_comma (List.map stringify vs)) < fuel)%nat ->
    parse_elements fuel (join_comma (List.map stringify vs) ++ 93 :: rest)
    = Some (vs, rest).
Proof.
  induction 1 as [|v vs Hv Hvs IH]; [congruence|]. intros _ fuel rest Hfuel.
  destruct fuel as [|f]; [lia|].
  destruct vs as [|v' vs'].
  - cbn [List.map join_comma] in *. cbn [parse_elements].
    rewrite (Hv f (93 :: rest)); [reflexivity|lia|simpl; auto].
  - cbn [List.map] in Hfuel, IH |- *. rewrite join_comma_cons in Hfuel |- *.
    set (J := join_comma (stringify v' :: List.map stringify vs')) in *.
    rewrite List.length_app in Hfuel. cbn [length] in Hfuel.
    rewrite <- app_assoc. cbn [app parse_elements].
    rewrite (Hv f (44 :: J ++ 93 :: rest)); [|lia|simpl; auto].
    cbn [skip_ws]. change (is_json_ws 44) with false.
    cbn [starts_with]. change (44 =? 44) with true. cbv iota.
    rewrite IH; [reflexivity|discriminate|lia].
Qed.

Lemma parse_members_join (ms : list (jsstring * json)) :
  Forall (fun kv => reads_back (snd kv)) ms ->
  ms <> [] ->
  forall (fuel : nat) (rest : jsstring),
    (length (join_comma (List.map member_text ms)) < fuel)%nat ->
    parse_members fuel (join_comma (List.map member_text ms) ++ 125 :: rest)
    = Some (ms, rest).
Proof.
  induction 1 as [|[k v] ms Hv Hms IH]; [congruence|]. intros _ fuel rest Hfuel.
  destruct fuel as [|f]; [lia|]. cbn [snd] in Hv.
  assert (Hkey : forall tail,
             parse_members (S f) (member_text (k, v) ++ tail)
             = match parse_value f (stringify v ++ tail) with
               | Some (v0, r3) =>
                   match starts_with 44 (skip_ws r3) with
                   | Some r4 =>
                       match parse_members f r4 with
                       | Some (ms0, rest0) => Some ((k, v0) :: ms0, rest0)
                       | None => None
                       end
                   | None =>
                       match starts_with 125 (skip_ws r3) with
                       | Some rest0 => Some ([(k, v0)], rest0)
                       | None => None
                       end
                   end
               | None => None
               end).
  { intros tail. unfold member_text, QuoteJSONString. cbn [fst snd app].
    rewrite <- !app_assoc. cbn [app parse_members skip_ws].
    change (is_json_ws 34) with false. cbn [starts_with].
    change (34 =? 34) with true. cbv iota.
    rewrite parse_string_quote. cbn [skip_ws].
    change (is_json_ws 58) with false. cbn [starts_with].
    change (58 =? 58) with true. reflexivity. }
  assert (Hlen : (length (member_text (k, v)) >= length (stringify v) + 3)%nat).
  { unfold member_text, QuoteJSONString. cbn [fst snd].
    rewrite List.length_app. cbn [length]. rewrite List.length_app. simpl. lia. }
  destruct ms as [|m' ms'].
  - cbn [List.map join_comma] in *. rewrite Hkey.
    rewrite (Hv f (125 :: rest)); [reflexivity|lia|simpl; auto].
  - cbn [List.map] in Hfuel, IH |- *. rewrite join_comma_cons in Hfuel |- *.
    set (J := join_comma (member_text m' :: List.map member_text ms')) in *.
    rewrite List.length_app in Hfuel. cbn [length] in Hfuel.
    rewrite <- app_assoc. rewrite Hkey. cbn [app].
    rewrite (Hv f (44 :: J ++ 125 :: rest)); [|lia|simpl; auto].
    cbn [skip_ws]. change (is_json_ws 44) with false.
    cbn [starts_with]. change (44 =? 44) with true. cbv iota.
    rewrite IH; [reflexivity|discriminate|lia].
Qed.

Lemma join_comma_head (parts : list jsstring) (p : jsstring) (c : N) (r : jsstring) :
  p = c :: r ->
  exists r', join_comma (p :: parts) = c :: r'.
Proof.
  intros ->. destruct parts; cbn [join_comma app]; eauto.
Qed.

(** Every value reads back. *)
Lemma parse_value_stringify (v : json) : reads_back v.
Proof.
  induction v as [|b|n|s|vs IH|ms IH] using json_induction;
    intros fuel rest Hfuel Hrest.
  - destruct fuel as [|f]; [simpl in Hfuel; lia|]. reflexivity.
  - destruct fuel as [|f]; [destruct b; simpl in Hfuel; lia|].
    now destruct b.
  - destruct fuel as [|f];
      [pose proof (stringify_length_pos (JNum n)); lia|].
    now apply parse_value_number.
  - destruct fuel as [|f];
      [pose proof (stringify_length_pos (JStr s)); lia|].
    apply parse_value_string.
  - destruct fuel as [|f]; [simpl in Hfuel; lia|].
    cbn [stringify] in Hfuel |- *. cbn [length] in Hfuel.
    rewrite List.length_app in Hfuel. cbn [length] in Hfuel.
    cbn [app]. rewrite <- app_assoc. cbn [app parse_value skip_ws].
    change (is_json_ws 91) with false. cbn [starts_with].
    change (91 =? 91) with true. cbv iota.
    destruct vs as [|v vs].
    + reflexivity.
    + destruct (stringify_head v) as (c & r & E & Hws & H93 & _).
      destruct (join_comma_head (List.map stringify vs) _ c r E) as [r' Er'].
      assert (Hopen : forall tail,
                 starts_with 93
                   (skip_ws (join_comma (List.map stringify (v :: vs)) ++ tail))
                 = None).
      { intros tail. cbn [List.map]. rewrite Er'. cbn [app skip_ws].
        rewrite Hws. cbn [starts_with].
        now rewrite (proj2 (N.eqb_neq c 93)) by exact H93. }
      rewrite Hopen.
      rewrite parse_elements_join; [reflexivity|exact IH|discriminate|lia].
  - destruct fuel as [|f]; [simpl in Hfuel; lia|].
    cbn [stringify] in Hfuel |- *. cbn [length] in Hfuel.
    rewrite List.length_app in Hfuel. cbn [length] in Hfuel.
    cbn [app]. rewrite <- app_assoc. cbn [app parse_value skip_ws].
    change (is_json_ws 91) with false. change (is_json_ws 123) with false.
    cbn [starts_with].
    change (123 =? 91) with false. change (123 =? 123) with true. cbv iota.
    fold member_text in Hfuel |- *.
    destruct ms as [|m ms].
    + reflexivity.
    + destruct (join_comma_head (List.map member_text ms) (member_text m) 34
                  (quote_units (fst m) ++ [34] ++ 58 :: stringify (snd m)))
        as [r' Er'].
      { unfold member_text, QuoteJSONString. cbn [app].
        now rewrite <- app_assoc. }
      assert (Hopen : forall tail,
                 starts_with 125
                   (skip_ws (join_comma (List.map member_text (m :: ms)) ++ tail))
                 = None).
      { intros tail. cbn [List.map]. rewrite Er'. reflexivity. }
      rewrite Hopen.
      rewrite parse_members_join;
        [reflexivity|exact IH|discriminate|unfold jsstring in *; lia].
Qed.

(** [JSON.parse (JSON.stringify v)] is [v], for every value. *)
Lemma parse_stringify (v : json) : parse (stringify v) = Some v.
Proof.
  unfold parse.
  pose proof (parse_value_stringify v (S (length (stringify v))) []) as H.
  rewrite app_nil_r in H. rewrite H; [reflexivity|lia|exact I].
Qed.

End JsonRoundTrip.

(** ** 11. The completion percentage *)

Section Percent.
Import App Number.

Lemma filter_all (f : Task -> bool) (ts : list Task) :
  (forall t, In t ts -> f t = true) -> List.filter f ts = ts.
Proof.
  induction ts as [|t ts IH]; intros H; simpl; [reflexivity|].
  rewrite (H t) by now left.
  rewrite IH; [reflexivity|]. intros t' Ht'. apply H. now right.
Qed.

(** The count of a non-empty array is a finite Number. *)
Lemma of_nat_finite (n : nat) :
  (0 < n)%nat -> (Z.of_nat n <= max_array_length)%Z ->
  exists m e, of_nat n = S754_finite false m e.
Proof.
  intros Hpos Hmax. unfold of_nat, max_array_length in *.
  destruct (Z.of_nat n) as [|p|p] eqn:E; try lia.
  apply of_Z_finite.
  assert (H : (2 ^ 32 - 1 < 2 ^ 53)%Z) by reflexivity. lia.
Qed.

End Percent.

Section PercentRounding.
Import App Number.
Local Open Scope Z_scope.





(** One completed task of two gives 50. *)
Example percentComplete_half :
  percentComplete [mkTask 2 (js "b") false (js "11/3/2026");
                   mkTask 1 (js "a") true (js "11/3/2026")] = of_Z 50.
Proof. reflexivity. Qed.

(** The division and the product are binary64 operations, so the value
    that is rounded need not be the exact quotient: with 23 tasks of 40
    completed the product is just below 57.5 and the percentage is 57,
    where exact arithmetic would round 57.5 up to 58. *)
Example percentComplete_23_of_40 :
  percentComplete
    (repeat (mkTask 1 (js "a") true []) 23 ++ repeat (mkTask 2 (js "b") false []) 17)
  = of_Z 57.
Proof. vm_compute. reflexivity. Qed.

End PercentRounding.

(** ** 12. Persisting and loading *)

Section Persistence.
Import JSON App.

Lemma task_of_json_to_json (t : Task) : task_of_json (task_to_json t) = Some t.
Proof. now destruct t. Qed.

Lemma tasks_of_json_to_json (ts : list Task) :
  tasks_of_json (tasks_to_json ts) = Some ts.
Proof.
  unfold tasks_of_json, tasks_to_json.
  induction ts as [|t ts IH]; [reflexivity|].
  cbn [List.map tasks_of_json_list].
  now rewrite task_of_json_to_json, IH.
Qed.

Lemma task_to_json_inj (t t' : Task) : task_to_json t = task_to_json t' -> t = t'.
Proof.
  intros H.
  assert (E : task_of_json (task_to_json t) = task_of_json (task_to_json t'))
    by now rewrite H.
  rewrite !task_of_json_to_json in E. now injection E.
Qed.

(** The text stored for the one-task collection [one_task]. *)
Example stringify_one_task :
  stringify (tasks_to_json (tasks one_task))
  = js "[{" ++ 34 :: js "id" ++ 34 :: js ":1," ++
    34 :: js "text" ++ 34 :: 58 :: 34 :: js "a" ++ 34 :: 44 ::
    34 :: js "completed" ++ 34 :: js ":false," ++
    34 :: js "createdAt" ++ 34 :: 58 :: 34 :: js "11/3/2026" ++ 34 :: js "}]".
Proof. reflexivity. Qed.

(** What [saveAndRender] leaves under the key [orbitTasks]. *)
Lemma saveAndRender_stored (st : State) :
  localStorage (saveAndRender st) !! js "orbitTasks"
  = Some (stringify (tasks_to_json (tasks st))).
Proof.
  unfold saveAndRender. cbn [renderTasks updateStats with_dom with_storage localStorage].
  apply lookup_insert_eq.
Qed.

(** Loading a page over a storage that holds a serialised collection. *)
Lemma onDOMContentLoaded_stored (st0 : State) (ts : list Task) :
  localStorage st0 !! js "orbitTasks" = Some (stringify (tasks_to_json ts)) ->
  exists st', onDOMContentLoaded st0 = Some st' /\ tasks st' = ts.
Proof.
  intros Hstored. unfold onDOMContentLoaded.
  set (theme := match localStorage st0 !! js "orbitTheme" with
                | Some s => if truthy s then s else js "ocean"
                | None => js "ocean"
                end).
  assert (Hlook : localStorage (setTheme theme st0) !! js "orbitTasks"
                  = Some (stringify (tasks_to_json ts))).
  { unfold setTheme. cbn [with_dom with_storage localStorage].
    rewrite lookup_insert_ne; [exact Hstored|]. discriminate. }
  rewrite Hlook.
  change (truthy (stringify (tasks_to_json ts))) with true. cbv iota.
  rewrite parse_stringify, tasks_of_json_to_json.
  eexists. split; reflexivity.
Qed.

(** C9: what [saveAndRender] writes, the [DOMContentLoaded] handler of a
    freshly loaded page reads back: the handler succeeds, and its task
    collection is the one that was saved, task by task and field by
    field.  At the level of values, parsing the stored text gives the
    array of objects that was serialised. *)
Theorem persist_then_load (st : State) :
  JSON.parse (stringify (tasks_to_json (tasks st)))
    = Some (tasks_to_json (tasks st)) /\
  exists st',
    onDOMContentLoaded (fresh (localStorage (saveAndRender st))) = Some st' /\
    tasks st' = tasks st.
Proof.
  split; [apply parse_stringify|].
  apply onDOMContentLoaded_stored. cbn [fresh localStorage].
  apply saveAndRender_stored.
Qed.

(** A stored collection with a quote, a control character, a pair of
    surrogates and a lone surrogate in a text. *)
Example load_after_save_example :
  let ts := [mkTask 1762128000000 (34 :: 9 :: 55357 :: 56832 :: 55357 :: js "<b>") true
                    (js "11/3/2026");
             mkTask (-1) (js "a\b") false []] in
  option_map tasks
    (onDOMContentLoaded (fresh (localStorage (saveAndRender (with_tasks ts (fresh ∅))))))
  = Some ts.
Proof. vm_compute. reflexivity. Qed.

End Persistence.

(** ** 13. More about the task store *)

Section StoreMore.
Import App Page.

Implicit Types (st : State) (ts : list Task) (t : Task) (i : Z).

Lemma filter_id_absent i ts :
  (forall t, In t ts -> id t <> i) ->
  List.filter (fun task => negb (id task =? i)%Z) ts = ts.
Proof.
  intros H. apply filter_all. intros t Ht.
  apply negb_true_iff, Z.eqb_neq. now apply H.
Qed.

Lemma map_id_absent i (f : Task -> Task) ts :
  (forall t, In t ts -> id t <> i) ->
  List.map (fun task => if (id task =? i)%Z then f task else task) ts = ts.
Proof.
  intros H. rewrite <- (List.map_id ts) at 2. apply List.map_ext_in.
  intros t Ht. now rewrite (proj2 (Z.eqb_neq _ _) (H t Ht)).
Qed.


(** X2: a second [deleteTask] with the same id changes nothing more. *)
Theorem deleteTask_idempotent i st :
  tasks (deleteTask i (deleteTask i st)) = tasks (deleteTask i st).
Proof.
  rewrite !tasks_deleteTask. apply filter_id_absent.
  intros t Ht. apply filter_In in Ht as [_ Ht].
  now apply negb_true_iff, Z.eqb_neq in Ht.
Qed.

(** X3: an id that no task has is silently ignored: toggling, editing
    or deleting it leaves the collection as it is. *)
Theorem unknown_id_ignored i (newText : jsstring) st :
  (forall t, In t (tasks st) -> id t <> i) ->
  tasks (toggleTask i st) = tasks st /\
  tasks (editTask i newText st) = tasks st /\
  tasks (deleteTask i st) = tasks st.
Proof.
  intros H. rewrite tasks_toggleTask, tasks_editTask, tasks_deleteTask.
  split; [|split].
  - exact (map_id_absent i _ _ H).
  - exact (map_id_absent i _ _ H).
  - now apply filter_id_absent.
Qed.

Lemma unknown_id_ignored_witness :
  (forall t, In t (tasks one_task) -> id t <> 7%Z) /\
  tasks (toggleTask 7 one_task) = tasks one_task /\
  tasks (editTask 7 (js "z") one_task) = tasks one_task /\
  tasks (deleteTask 7 one_task) = tasks one_task.
Proof.
  assert (H : forall t, In t (tasks one_task) -> id t <> 7%Z).
  { intros t [<-|[]]. discriminate. }
  split; [exact H|]. exact (unknown_id_ignored 7 (js "z") one_task H).
Defined.

(** X4: [clearCompleted] leaves exactly what the 'active' filter shows,
    no completed task is left, and a second call changes nothing. *)
Theorem clearCompleted_leaves_active st :
  tasks (clearCompleted st) = filteredTasks (js "active") (tasks st) /\
  (forall t, In t (tasks (clearCompleted st)) -> completed t = false) /\
  tasks (clearCompleted (clearCompleted st)) = tasks (clearCompleted st).
Proof.
  rewrite !tasks_clearCompleted. split; [reflexivity|].
  assert (H : forall t,
             In t (List.filter (fun task => negb (completed task)) (tasks st)) ->
             completed t = false).
  { intros t Ht. apply filter_In in Ht as [_ Ht]. now apply negb_true_iff. }
  split; [exact H|].
  apply filter_all. intros t Ht. apply negb_true_iff. now apply H.
Qed.

(** X5: [addTask] empties the input field when it adds a task, so a
    second [addTask] right after the first one (a double click, Enter
    pressed twice) adds nothing: the state stays what the first call made
    it, whatever the clock shows. *)
Theorem addTask_twice now today now' today' st :
  addTask now' today' (addTask now today st) = addTask now today st.
Proof.
  destruct (is_empty (trim (taskInput_value (dom st)))) eqn:E.
  - assert (H : addTask now today st = st) by (unfold addTask; now rewrite E).
    rewrite H. unfold addTask. now rewrite E.
  - assert (Hin : taskInput_value (dom (addTask now today st)) = [])
      by (unfold addTask; now rewrite E).
    unfold addTask at 1. now rewrite Hin.
Qed.

(** X6: [editTask i newText] changes texts only: the number of tasks,
    their order, ids, flags and dates are kept, every task with id [i]
    gets the text [newText], and every other task is left as it is. *)
Theorem editTask_frame i (newText : jsstring) st :
  length (tasks (editTask i newText st)) = length (tasks st) /\
  forall k t,
    nth_error (tasks st) k = Some t ->
    exists t',
      nth_error (tasks (editTask i newText st)) k = Some t' /\
      id t' = id t /\ completed t' = completed t /\ createdAt t' = createdAt t /\
      (id t = i -> text t' = newText) /\
      (id t <> i -> t' = t).
Proof.
  rewrite tasks_editTask. split; [apply List.length_map|].
  intros k t Hk. rewrite nth_error_map, Hk. simpl.
  eexists. split; [reflexivity|].
  destruct (id t =? i)%Z eqn:E; simpl.
  - apply Z.eqb_eq in E. repeat split; try reflexivity. intros Hne. contradiction.
  - apply Z.eqb_neq in E. repeat split; try reflexivity. intros Heq. contradiction.
Qed.

(** X7: of two edits of the same id the later one wins. *)
Theorem editTask_last_wins i (a b : jsstring) st :
  tasks (editTask i b (editTask i a st)) = tasks (editTask i b st).
Proof.
  rewrite !tasks_editTask, List.map_map. apply List.map_ext.
  intros t. destruct (id t =? i)%Z eqn:E; simpl; now rewrite E.
Qed.

(** X8: an edit committed with a field value that is not blank stores
    the trimmed value as the text of every task with that id. *)
Theorem saveEdit_stores_trimmed i (value : jsstring) st :
  trim value <> [] ->
  tasks (saveEdit i value st) = tasks (editTask i (trim value) st) /\
  forall t, In t (tasks (saveEdit i value st)) -> id t = i -> text t = trim value.
Proof.
  intros Hne.
  assert (E : saveEdit i value st = editTask i (trim value) st).
  { unfold saveEdit. destruct (truthy (trim value)) eqn:T; [reflexivity|].
    apply truthy_false in T. contradiction. }
  rewrite E. split; [reflexivity|].
  rewrite tasks_editTask. intros t Ht Hid.
  apply in_map_iff in Ht as (t0 & Ht0 & _).
  destruct (id t0 =? i)%Z eqn:E0; subst t; [reflexivity|].
  apply Z.eqb_neq in E0. contradiction.
Qed.

Lemma saveEdit_stores_trimmed_witness :
  trim (js " b ") <> [] /\
  tasks (saveEdit 1 (js " b ") one_task) = [mkTask 1 (js "b") false (js "11/3/2026")].
Proof.
  split; [discriminate|].
  rewrite (proj1 (saveEdit_stores_trimmed 1 (js " b ") one_task ltac:(discriminate))).
  reflexivity.
Defined.

(** X9: removing the task that was just added, by its id, gives back
    the collection from before the addition, when no older task has
    that id. *)
Theorem addTask_then_deleteTask now today st :
  (forall t, In t (tasks st) -> id t <> now) ->
  tasks (deleteTask now (addTask now today st)) = tasks st.
Proof.
  intros Hfresh. rewrite tasks_deleteTask, tasks_addTask.
  destruct (is_empty (trim (taskInput_value (dom st)))).
  - now apply filter_id_absent.
  - cbn [List.filter id]. rewrite Z.eqb_refl. cbn [negb].
    now apply filter_id_absent.
Qed.

Lemma addTask_then_deleteTask_witness :
  (forall t, In t (tasks one_task) -> id t <> 2%Z) /\
  tasks (deleteTask 2 (addTask 2 (js "11/4/2026") (typed (js "milk") one_task)))
  = tasks one_task.
Proof.
  assert (H : forall t, In t (tasks (typed (js "milk") one_task)) -> id t <> 2%Z).
  { intros t [<-|[]]. discriminate. }
  split; [exact H|].
  exact (addTask_then_deleteTask 2 (js "11/4/2026") (typed (js "milk") one_task) H).
Defined.

End StoreMore.

(** ** 14. What [trim] keeps *)

Section TrimMore.

Lemma trimStart_split (s : jsstring) :
  exists pre, s = pre ++ trimStart s /\ whitespace_only pre = true.
Proof.
  induction s as [|c r (pre & E & Hpre)]; simpl.
  - now exists [].
  - destruct (isWhiteSpace c) eqn:Hc.
    + exists (c :: pre). split; [simpl; now rewrite <- E|].
      unfold whitespace_only in *. simpl. now rewrite Hc.
    + now exists [].
Qed.

Lemma trimStart_fixed (c : N) (r : jsstring) :
  isWhiteSpace c = false -> trimStart (c :: r) = c :: r.
Proof. intros H. simpl. now rewrite H. Qed.

Lemma trimStart_idempotent (s : jsstring) : trimStart (trimStart s) = trimStart s.
Proof.
  destruct (trimStart_head s) as [->|(c & r & -> & Hc)]; [reflexivity|].
  now apply trimStart_fixed.
Qed.

(** The three strings [trim] works with: [u] is [s] without its leading
    white space, [w] the reverse of [u] without its leading white space,
    and the result is the reverse of [w]. *)
Lemma trim_anatomy (s : jsstring) :
  exists pre post w,
    trim s = rev w /\
    s = pre ++ rev w ++ post /\
    whitespace_only pre = true /\ whitespace_only post = true /\
    trimStart w = w /\ trimStart (rev w) = rev w /\
    (w = [] \/ exists a b l r, w = b :: r /\ rev w = a :: l /\
                             isWhiteSpace a = false /\ isWhiteSpace b = false).
Proof.
  unfold trim, trimEnd.
  destruct (trimStart_split s) as (pre & Es & Hpre).
  set (u := trimStart s) in *.
  destruct (trimStart_split (rev u)) as (post' & Eu & Hpost).
  set (w := trimStart (rev u)) in *.
  assert (Eu' : u = rev w ++ rev post').
  { rewrite <- (rev_involutive u), Eu. apply rev_app_distr. }
  assert (Hw : w = [] \/ exists c r, w = c :: r /\ isWhiteSpace c = false).
  { subst w. apply trimStart_head. }
  assert (Hu : u = [] \/ exists c r, u = c :: r /\ isWhiteSpace c = false).
  { subst u. apply trimStart_head. }
  exists pre, (rev post'), w.
  split; [reflexivity|]. split; [now rewrite <- Eu'|].
  split; [exact Hpre|]. split; [now rewrite whitespace_only_rev|].
  split; [subst w; apply trimStart_idempotent|].
  destruct Hw as [Hw|(c & r & Ew & Hc)].
  - rewrite Hw. split; [reflexivity|now left].
  - destruct (rev w) as [|x l] eqn:Er.
    { rewrite Ew in Er. simpl in Er. now destruct (rev r). }
    destruct Hu as [Hu|(a & ru & Hu & Ha)].
    { rewrite Hu in Eu'. discriminate. }
    rewrite Hu in Eu'. injection Eu' as -> _.
    split; [now apply trimStart_fixed|].
    right. exists x, c, l, r. auto.
Qed.

Lemma trim_idempotent (s : jsstring) : trim (trim s) = trim s.
Proof.
  destruct (trim_anatomy s) as (pre & post & w & E & _ & _ & _ & Hw & Hrw & _).
  rewrite E. unfold trim, trimEnd.
  now rewrite Hrw, rev_involutive, Hw.
Qed.

(** X10: [trim] cuts white space off both ends and nothing else: the
    string is a white-space prefix, the result and a white-space suffix;
    the result, if not empty, begins and ends with a code unit that is
    no white space; and trimming again changes nothing. *)
Theorem trim_decomposition (s : jsstring) :
  (exists pre post,
      s = pre ++ trim s ++ post /\
      whitespace_only pre = true /\ whitespace_only post = true) /\
  (trim s = [] \/
   exists a b, head (trim s) = Some a /\ last (trim s) = Some b /\
               isWhiteSpace a = false /\ isWhiteSpace b = false) /\
  trim (trim s) = trim s.
Proof.
  split; [|split; [|apply trim_idempotent]];
    destruct (trim_anatomy s) as (pre & post & w & E & Es & Hpre & Hpost & _ & _ & Hends);
    rewrite E.
  - exists pre, post. auto.
  - destruct Hends as [->|(a & b & l & r & Ew & Er & Ha & Hb)]; [now left|].
    right. exists a, b. split; [now rewrite Er|].
    split; [|auto]. rewrite Ew. simpl. apply last_snoc.
Qed.

End TrimMore.

(** ** 15. Invariants of a session *)

Section Sessions.
Import JSON Number App Page.

Implicit Types (st : State) (ts : list Task) (t : Task) (i : Z) (ev : PageEvent).

(** *** Texts stay valid and trimmed *)

Lemma texts_trimmed_filter (f : Task -> bool) ts :
  texts_trimmed ts -> texts_trimmed (List.filter f ts).
Proof.
  unfold texts_trimmed. rewrite !List.Forall_forall.
  intros H t Ht. apply filter_In in Ht. apply H, Ht.
Qed.

Lemma texts_trimmed_toggle i ts :
  texts_trimmed ts ->
  texts_trimmed (List.map (fun task =>
              if (id task =? i)%Z
              then mkTask (id task) (text task) (negb (completed task)) (createdAt task)
              else task) ts).
Proof.
  unfold texts_trimmed. induction 1 as [|t ts Ht Hts IH]; simpl; constructor; auto.
  destruct (id t =? i)%Z; auto.
Qed.

Lemma texts_trimmed_edit i (newText : jsstring) ts :
  trim newText = newText ->
  texts_trimmed ts ->
  texts_trimmed (List.map (fun task =>
              if (id task =? i)%Z
              then mkTask (id task) newText (completed task) (createdAt task)
              else task) ts).
Proof.
  intros Hnew. unfold texts_trimmed.
  induction 1 as [|t ts Ht Hts IH]; simpl; constructor; auto.
  destruct (id t =? i)%Z; auto.
Qed.

Lemma texts_trimmed_dispatch ev st :
  texts_trimmed (tasks st) -> texts_trimmed (tasks (dispatch ev st)).
Proof.
  intros H. destruct ev as [v|now today|i|i|i v| |m|n]; cbn [dispatch].
  - exact H.
  - rewrite tasks_addTask.
    destruct (is_empty (trim (taskInput_value (dom st)))); [exact H|].
    constructor; [|exact H]. cbn [text]. apply trim_idempotent.
  - rewrite tasks_toggleTask. now apply texts_trimmed_toggle.
  - rewrite tasks_deleteTask. now apply texts_trimmed_filter.
  - unfold saveEdit. destruct (truthy (trim v)); [|exact H].
    rewrite tasks_editTask. apply texts_trimmed_edit; [apply trim_idempotent|exact H].
  - rewrite tasks_clearCompleted. now apply texts_trimmed_filter.
  - exact H.
  - exact H.
Qed.

Lemma texts_ok_dispatch ev st :
  texts_ok (tasks st) -> texts_ok (tasks (dispatch ev st)).
Proof.
  intros H. destruct ev as [v|now today|i|i|i v| |m|n]; cbn [dispatch].
  - exact H.
  - now apply texts_ok_addTask.
  - rewrite tasks_toggleTask. now apply texts_ok_toggle.
  - rewrite tasks_deleteTask. now apply texts_ok_filter.
  - now apply texts_ok_saveEdit.
  - rewrite tasks_clearCompleted. now apply texts_ok_filter.
  - exact H.
  - exact H.
Qed.

(** X11: through a whole session, whatever the events and their
    arguments, every task keeps a text that is not blank and that has no
    white space at either end, provided the session starts that way (as
    it does on an empty page). *)
Theorem session_keeps_texts (evs : list PageEvent) st :
  texts_ok (tasks st) -> texts_trimmed (tasks st) ->
  texts_ok (tasks (run evs st)) /\ texts_trimmed (tasks (run evs st)).
Proof.
  revert st. induction evs as [|ev evs IH]; intros st Hok Htr; cbn [run].
  - now split.
  - apply IH; [now apply texts_ok_dispatch|now apply texts_trimmed_dispatch].
Qed.

Lemma session_keeps_texts_witness :
  texts_ok (tasks (fresh ∅)) /\ texts_trimmed (tasks (fresh ∅)) /\
  texts_ok (tasks (run [InputText (js " milk "); ClickAdd 5 (js "11/3/2026");
                        CommitEdit 5 (js "  ")] (fresh ∅))).
Proof.
  assert (H1 : texts_ok (tasks (fresh ∅))) by constructor.
  assert (H2 : texts_trimmed (tasks (fresh ∅))) by constructor.
  split; [exact H1|]. split; [exact H2|].
  exact (proj1 (session_keeps_texts _ (fresh ∅) H1 H2)).
Defined.

(** *** Ids stay distinct *)

Lemma NoDup_map_filter {A B : Type} (g : A -> B) (f : A -> bool) (l : list A) :
  List.NoDup (List.map g l) -> List.NoDup (List.map g (List.filter f l)).
Proof.
  induction l as [|a l IH]; simpl; [auto|].
  intros H. apply List.NoDup_cons_iff in H as [Hin Hnd].
  destruct (f a); simpl; [|auto].
  apply List.NoDup_cons; [|auto].
  intros Hin'. apply Hin. apply in_map_iff in Hin' as (x & Hx & Hxin).
  apply filter_In in Hxin as [Hxin _]. apply in_map_iff. eauto.
Qed.

Lemma map_id_update i (f : Task -> Task) ts :
  (forall t, id (f t) = id t) ->
  List.map id (List.map (fun task => if (id task =? i)%Z then f task else task) ts)
  = List.map id ts.
Proof.
  intros Hf. rewrite List.map_map. apply List.map_ext.
  intros t. destruct (id t =? i)%Z; [apply Hf|reflexivity].
Qed.

Lemma sublist_map_filter (f : Task -> bool) ts :
  sublist (List.map id (List.filter f ts)) (List.map id ts).
Proof.
  induction ts as [|t ts IH]; simpl; [constructor|].
  destruct (f t); simpl; now constructor.
Qed.

Lemma ids_step_dispatch ev st :
  ids_step ev (List.map id (tasks st)) (List.map id (tasks (dispatch ev st))).
Proof.
  destruct ev as [v|now today|i|i|i v| |m|n]; cbn [dispatch ids_step].
  - reflexivity.
  - rewrite tasks_addTask.
    destruct (is_empty (trim (taskInput_value (dom st)))); [now left|now right].
  - rewrite tasks_toggleTask, map_id_update; auto.
  - rewrite tasks_deleteTask. apply sublist_map_filter.
  - unfold saveEdit. destruct (truthy (trim v)); [|reflexivity].
    rewrite tasks_editTask, map_id_update; auto.
  - rewrite tasks_clearCompleted. apply sublist_map_filter.
  - reflexivity.
  - reflexivity.
Qed.

(** X12: the ids of the collection stay pairwise distinct under every
    event, as long as the clock value an addition uses is not the id of
    a task already there; and no event changes or copies an id: an
    addition puts its clock value in front of the list of ids or leaves
    the list alone, deleting and clearing leave a sublist of it, and
    every other event leaves it as it is. *)
Theorem ids_stay_distinct ev st :
  List.NoDup (List.map id (tasks st)) ->
  (forall now today, ev = ClickAdd now today ->
                     forall t, In t (tasks st) -> id t <> now) ->
  List.NoDup (List.map id (tasks (dispatch ev st))) /\
  ids_step ev (List.map id (tasks st)) (List.map id (tasks (dispatch ev st))).
Proof.
  intros Hnd Hclock. split; [|apply ids_step_dispatch].
  destruct ev as [v|now today|i|i|i v| |m|n]; cbn [dispatch].
  - exact Hnd.
  - rewrite tasks_addTask.
    destruct (is_empty (trim (taskInput_value (dom st)))); [exact Hnd|].
    cbn [List.map id]. apply List.NoDup_cons; [|exact Hnd].
    intros Hin. apply in_map_iff in Hin as (t & Hid & Ht).
    now apply (Hclock now today eq_refl t Ht).
  - rewrite tasks_toggleTask, map_id_update; auto.
  - rewrite tasks_deleteTask. now apply NoDup_map_filter.
  - unfold saveEdit. destruct (truthy (trim v)); [|exact Hnd].
    rewrite tasks_editTask, map_id_update; auto.
  - rewrite tasks_clearCompleted. now apply NoDup_map_filter.
  - exact Hnd.
  - exact Hnd.
Qed.

Lemma ids_stay_distinct_witness :
  List.NoDup (List.map id (tasks (typed (js "b") one_task))) /\
  List.NoDup (List.map id (tasks (dispatch (ClickAdd 2 (js "11/4/2026"))
                                           (typed (js "b") one_task)))) /\
  List.map id (tasks (dispatch (ClickAdd 2 (js "11/4/2026"))
                               (typed (js "b") one_task))) = [2; 1]%Z.
Proof.
  assert (H : List.NoDup (List.map id (tasks (typed (js "b") one_task)))).
  { repeat constructor. intros []. }
  split; [exact H|].
  destruct (ids_stay_distinct (ClickAdd 2 (js "11/4/2026")) _ H) as [Hnd Hstep].
  - intros now today [= <- _] t [<-|[]]. discriminate.
  - split; [exact Hnd|]. reflexivity.
Defined.

End Sessions.

(** ** 16. The page, the storage and a reload *)

Section Reload.
Import JSON Number App Page.

Implicit Types (st : State) (ts : list Task) (ev : PageEvent)
         (storage : gmap jsstring jsstring).

(** The tasks a page load ends with depend on the [orbitTasks] entry only. *)
Lemma load_tasks st :
  option_map tasks (onDOMContentLoaded st)
  = match localStorage st !! js "orbitTasks" with
    | Some s =>
        if truthy s then
          match JSON.parse s with
          | Some v => tasks_of_json v
          | None => None
          end
        else Some (tasks st)
    | None => Some (tasks st)
    end.
Proof.
  unfold onDOMContentLoaded, setTheme.
  cbn [with_dom with_storage localStorage].
  rewrite lookup_insert_ne by discriminate.
  destruct (localStorage st !! js "orbitTasks") as [s|]; [|reflexivity].
  destruct (truthy s); [|reflexivity].
  destruct (JSON.parse s) as [v|]; [|reflexivity].
  now destruct (tasks_of_json v).
Qed.

Lemma reload_restores_saved st : reload_restores (saveAndRender st).
Proof.
  unfold reload_restores. rewrite load_tasks. cbn [fresh localStorage].
  rewrite saveAndRender_stored.
  change (truthy (stringify (tasks_to_json (tasks st)))) with true. cbv iota.
  now rewrite parse_stringify, tasks_of_json_to_json.
Qed.

Lemma reload_restores_same st st' :
  localStorage st' !! js "orbitTasks" = localStorage st !! js "orbitTasks" ->
  tasks st' = tasks st ->
  reload_restores st -> reload_restores st'.
Proof.
  unfold reload_restores. rewrite !load_tasks. cbn [fresh localStorage tasks].
  now intros -> ->.
Qed.

Lemma reload_restores_dispatch ev st :
  reload_restores st -> reload_restores (dispatch ev st).
Proof.
  intros H. destruct ev as [v|now today|i|i|i v| |m|n]; cbn [dispatch].
  - now apply (reload_restores_same st).
  - unfold addTask.
    destruct (is_empty (trim (taskInput_value (dom st)))); [exact H|].
    eapply reload_restores_same; [| |apply reload_restores_saved]; reflexivity.
  - apply reload_restores_saved.
  - apply reload_restores_saved.
  - unfold saveEdit. destruct (truthy (trim v)); [|exact H].
    apply reload_restores_saved.
  - apply reload_restores_saved.
  - now apply (reload_restores_same st).
  - apply (reload_restores_same st); [|reflexivity|exact H].
    unfold setTheme. cbn [with_dom with_storage localStorage].
    now rewrite lookup_insert_ne by discriminate.
Qed.

Lemma reload_restores_run (evs : list PageEvent) st :
  reload_restores st -> reload_restores (run evs st).
Proof.
  revert st. induction evs as [|ev evs IH]; intros st H; cbn [run]; [exact H|].
  apply IH. now apply reload_restores_dispatch.
Qed.

Lemma reload_restores_loaded storage st0 :
  onDOMContentLoaded (fresh storage) = Some st0 -> reload_restores st0.
Proof.
  intros Hload. unfold reload_restores.
  assert (Hls : localStorage st0 !! js "orbitTasks" = storage !! js "orbitTasks").
  { unfold onDOMContentLoaded in Hload.
    repeat match type of Hload with
           | match ?x with _ => _ end = _ => destruct x
           end; try discriminate; injection Hload as <-;
      cbn [renderTasks updateStats setTheme with_tasks with_dom with_storage
           localStorage fresh];
      now rewrite lookup_insert_ne by discriminate. }
  pose proof (load_tasks (fresh storage)) as H0.
  rewrite Hload in H0. cbn [option_map fresh localStorage tasks] in H0.
  rewrite load_tasks. cbn [fresh localStorage tasks]. rewrite Hls.
  now rewrite <- H0.
Qed.

Lemma ids_safe_filter (f : Task -> bool) ts : ids_safe ts -> ids_safe (List.filter f ts).
Proof.
  unfold ids_safe. rewrite !List.Forall_forall.
  intros H t Ht. apply filter_In in Ht. apply H, Ht.
Qed.

Lemma ids_safe_update i (f : Task -> Task) ts :
  (forall t, id (f t) = id t) ->
  ids_safe ts ->
  ids_safe (List.map (fun task => if (id task =? i)%Z then f task else task) ts).
Proof.
  intros Hf. unfold ids_safe.
  induction 1 as [|t ts Ht Hts IH]; simpl; constructor; auto.
  destruct (id t =? i)%Z; [now rewrite Hf|exact Ht].
Qed.

Lemma ids_safe_dispatch ev st :
  clock_safe ev -> ids_safe (tasks st) -> ids_safe (tasks (dispatch ev st)).
Proof.
  intros Hc H. destruct ev as [v|now today|i|i|i v| |m|n]; cbn [dispatch].
  - exact H.
  - rewrite tasks_addTask.
    destruct (is_empty (trim (taskInput_value (dom st)))); [exact H|].
    constructor; [exact Hc|exact H].
  - rewrite tasks_toggleTask. now apply ids_safe_update.
  - rewrite tasks_deleteTask. now apply ids_safe_filter.
  - unfold saveEdit. destruct (truthy (trim v)); [|exact H].
    rewrite tasks_editTask. now apply ids_safe_update.
  - rewrite tasks_clearCompleted. now apply ids_safe_filter.
  - exact H.
  - exact H.
Qed.

Lemma ids_safe_run (evs : list PageEvent) st :
  Forall clock_safe evs -> ids_safe (tasks st) -> ids_safe (tasks (run evs st)).
Proof.
  intros Hevs. revert st.
  induction Hevs as [|ev evs Hev Hevs IH]; intros st H; cbn [run]; [exact H|].
  apply IH. now apply ids_safe_dispatch.
Qed.

Lemma load_stored_collection (storage : gmap jsstring jsstring) ts0 :
  stored_collection storage ts0 ->
  exists st0, onDOMContentLoaded (fresh storage) = Some st0 /\ tasks st0 = ts0.
Proof.
  intros H. pose proof (load_tasks (fresh storage)) as Hl.
  cbn [fresh localStorage tasks] in Hl.
  unfold stored_collection in H. unfold jsstring in *.
  assert (E : option_map tasks (onDOMContentLoaded (fresh storage)) = Some ts0).
  { rewrite Hl. destruct H as [[-> ->]|[[-> ->]| ->]]; try reflexivity.
    change (truthy (stringify (tasks_to_json ts0))) with true. cbv iota.
    now rewrite parse_stringify, tasks_of_json_to_json. }
  destruct (onDOMContentLoaded (fresh storage)) as [st0|]; [|discriminate].
  exists st0. split; [reflexivity|]. now injection E.
Qed.

(** X13: the storage is never behind the page.  Start from a storage
    whose [orbitTasks] entry the page itself has written (or that has
    none) for a collection with ids that Numbers hold exactly, and let any
    events happen, the additions with such clock values: the first load
    succeeds with that collection, the ids stay such integers, and a
    reload after the events succeeds and brings back exactly the tasks
    the page has. *)
Theorem session_survives_reload (storage : gmap jsstring jsstring) ts0
        (evs : list PageEvent) :
  stored_collection storage ts0 ->
  ids_safe ts0 ->
  Forall clock_safe evs ->
  exists st0,
    onDOMContentLoaded (fresh storage) = Some st0 /\ tasks st0 = ts0 /\
    ids_safe (tasks (run evs st0)) /\
    exists st',
      onDOMContentLoaded (fresh (localStorage (run evs st0))) = Some st' /\
      tasks st' = tasks (run evs st0).
Proof.
  intros Hstored Hsafe Hclock.
  destruct (load_stored_collection storage ts0 Hstored) as (st0 & Hload & Ht0).
  exists st0. split; [exact Hload|]. split; [exact Ht0|].
  split; [apply ids_safe_run; [exact Hclock|now rewrite Ht0]|].
  assert (H : reload_restores (run evs st0)).
  { apply reload_restores_run. now apply reload_restores_loaded in Hload. }
  unfold reload_restores in H.
  destruct (onDOMContentLoaded (fresh (localStorage (run evs st0)))) as [st'|];
    [|discriminate].
  exists st'. split; [reflexivity|]. now injection H.
Qed.

Lemma session_survives_reload_witness :
  stored_collection (localStorage (saveAndRender one_task)) (tasks one_task) /\
  ids_safe (tasks one_task) /\
  Forall clock_safe [InputText (js "milk"); ClickAdd 1762128000000 (js "11/3/2026");
                     ChangeCheckbox 1; ClickTheme (js "forest")] /\
  exists st0 st',
    onDOMContentLoaded (fresh (localStorage (saveAndRender one_task))) = Some st0 /\
    onDOMContentLoaded
      (fresh (localStorage
                (run [InputText (js "milk"); ClickAdd 1762128000000 (js "11/3/2026");
                      ChangeCheckbox 1; ClickTheme (js "forest")] st0))) = Some st' /\
    tasks st' = [mkTask 1762128000000 (js "milk") false (js "11/3/2026");
                 mkTask 1 (js "a") true (js "11/3/2026")].
Proof.
  assert (H1 : stored_collection (localStorage (saveAndRender one_task)) (tasks one_task)).
  { right. right. apply saveAndRender_stored. }
  assert (H2 : ids_safe (tasks one_task)).
  { constructor; [|constructor]. unfold safe_integer. simpl. lia. }
  assert (H3 : Forall clock_safe
                 [InputText (js "milk"); ClickAdd 1762128000000 (js "11/3/2026");
                  ChangeCheckbox 1; ClickTheme (js "forest")]).
  { repeat (apply List.Forall_cons;
            [first [exact I | unfold clock_safe, safe_integer; lia]|]).
    apply List.Forall_nil. }
  split; [exact H1|]. split; [exact H2|]. split; [exact H3|].
  destruct (session_survives_reload _ _ _ H1 H2 H3)
    as (st0 & Hload & Ht0 & _ & st' & Hre & Ht').
  exists st0, st'. split; [exact Hload|]. split; [exact Hre|].
  rewrite Ht'.
  assert (E : onDOMContentLoaded (fresh (localStorage (saveAndRender one_task)))
              = Some (renderTasks (with_tasks (tasks one_task)
                        (setTheme (js "ocean") (fresh (localStorage (saveAndRender one_task)))))))
    by reflexivity.
  rewrite E in Hload. injection Hload as <-. reflexivity.
Defined.

(** *** The page shows the state *)

Lemma renderTasks_idempotent st : renderTasks (renderTasks st) = renderTasks st.
Proof. reflexivity. Qed.






(** *** The theme *)

Lemma theme_stored_dispatch ev st : theme_stored st -> theme_stored (dispatch ev st).
Proof.
  unfold theme_stored. intros H.
  destruct ev as [v|now today|i|i|i v| |m|n]; cbn [dispatch].
  - exact H.
  - unfold addTask.
    destruct (is_empty (trim (taskInput_value (dom st)))); [exact H|].
    cbn [saveAndRender renderTasks updateStats with_tasks with_dom with_storage
         localStorage dom data_theme].
    now rewrite lookup_insert_ne by discriminate.
  - cbn [toggleTask saveAndRender renderTasks updateStats with_tasks with_dom
         with_storage localStorage dom data_theme].
    now rewrite lookup_insert_ne by discriminate.
  - cbn [deleteTask saveAndRender renderTasks updateStats with_tasks with_dom
         with_storage localStorage dom data_theme].
    now rewrite lookup_insert_ne by discriminate.
  - unfold saveEdit. destruct (truthy (trim v)); [|exact H].
    cbn [editTask saveAndRender renderTasks updateStats with_tasks with_dom
         with_storage localStorage dom data_theme].
    now rewrite lookup_insert_ne by discriminate.
  - cbn [clearCompleted saveAndRender renderTasks updateStats with_tasks with_dom
         with_storage localStorage dom data_theme].
    now rewrite lookup_insert_ne by discriminate.
  - exact H.
  - cbn [setTheme with_dom with_storage localStorage dom data_theme].
    apply lookup_insert_eq.
Qed.

Lemma theme_stored_run (evs : list PageEvent) st :
  theme_stored st -> theme_stored (run evs st).
Proof.
  revert st. induction evs as [|ev evs IH]; intros st H; cbn [run]; [exact H|].
  apply IH. now apply theme_stored_dispatch.
Qed.

Lemma load_theme st st' :
  onDOMContentLoaded st = Some st' ->
  data_theme (dom st') = theme_on_load (localStorage st !! js "orbitTheme") /\
  theme_stored st'.
Proof.
  unfold onDOMContentLoaded, theme_on_load, theme_stored. intros H.
  set (th := match localStorage st !! js "orbitTheme" with
             | Some s => if truthy s then s else js "ocean"
             | None => js "ocean"
             end) in *.
  repeat match type of H with
         | match ?x with _ => _ end = _ => destruct x
         end; try discriminate; injection H as <-;
    cbn [renderTasks updateStats setTheme with_tasks with_dom with_storage
         localStorage dom data_theme];
    (split; [reflexivity|apply lookup_insert_eq]).
Qed.

(** X15: the theme survives a reload.  Throughout a session the stored
    [orbitTheme] entry is the theme the page has, whatever else is saved,
    and a reload takes that theme again; only the empty name is
    replaced by [ocean]. *)
Theorem session_theme_survives_reload storage st0 (evs : list PageEvent) st' :
  onDOMContentLoaded (fresh storage) = Some st0 ->
  onDOMContentLoaded (fresh (localStorage (run evs st0))) = Some st' ->
  localStorage (run evs st0) !! js "orbitTheme"
    = Some (data_theme (dom (run evs st0))) /\
  data_theme (dom st')
    = (if truthy (data_theme (dom (run evs st0)))
       then data_theme (dom (run evs st0)) else js "ocean").
Proof.
  intros Hload Hreload.
  assert (H : theme_stored (run evs st0)).
  { apply theme_stored_run. now apply load_theme in Hload as [_ Hload]. }
  split; [exact H|].
  apply load_theme in Hreload as [-> _].
  cbn [fresh localStorage]. unfold theme_stored in H. now rewrite H.
Qed.

Lemma session_theme_survives_reload_witness :
  exists st',
    onDOMContentLoaded
      (fresh (localStorage (run [ClickTheme (js "forest")]
                                (renderTasks (setTheme (js "ocean") (fresh ∅))))))
    = Some st' /\
    data_theme (dom st') = js "forest".
Proof.
  eexists. split; [reflexivity|].
  exact (proj2 (session_theme_survives_reload ∅ _ [ClickTheme (js "forest")] _
                  eq_refl eq_refl)).
Defined.

(** X16: a storage without tasks.  When the [orbitTasks] entry is absent
    or the empty string, the load does not call [JSON.parse]: it succeeds
    with the empty collection, shows the message of the 'all' filter,
    "0 items left" and 0 percent, and takes the stored theme or
    [ocean]. *)
Theorem load_without_tasks storage :
  storage !! js "orbitTasks" = None \/ storage !! js "orbitTasks" = Some [] ->
  exists st',
    onDOMContentLoaded (fresh storage) = Some st' /\
    tasks st' = [] /\
    currentFilter st' = js "all" /\
    taskList (dom st') = EmptyState (js "No tasks yet. Start your journey!") /\
    itemsLeftLabel (dom st') = js "0 items left" /\
    percent (dom st') = of_Z 0 /\
    data_theme (dom st') = theme_on_load (storage !! js "orbitTheme").
Proof.
  intros H. unfold onDOMContentLoaded.
  fold (theme_on_load (localStorage (fresh storage) !! js "orbitTheme")).
  set (th := theme_on_load (localStorage (fresh storage) !! js "orbitTheme")).
  assert (Hl : localStorage (setTheme th (fresh storage)) !! js "orbitTasks"
               = storage !! js "orbitTasks").
  { unfold setTheme. cbn [with_dom with_storage localStorage fresh].
    now rewrite lookup_insert_ne by discriminate. }
  rewrite Hl. unfold jsstring in *.
  destruct H as [-> | ->]; eexists; (split; [reflexivity|]);
    repeat split; reflexivity.
Qed.

Lemma load_without_tasks_witness :
  (∅ : gmap jsstring jsstring) !! js "orbitTasks" = None /\
  exists st', onDOMContentLoaded (fresh ∅) = Some st' /\ tasks st' = [].
Proof.
  assert (Habsent : (∅ : gmap jsstring jsstring) !! js "orbitTasks" = None)
    by reflexivity.
  split; [exact Habsent|].
  destruct (load_without_tasks ∅ (or_introl Habsent)) as (st' & H & Ht & _).
  now exists st'.
Defined.

End Reload.

(** ** 17. Filter, statistics, serialisation and escaping *)

Section ViewMore.
Import JSON Number App Page.

Implicit Types (st : State) (ts : list Task) (t : Task) (i : Z).

Lemma filter_sublist (f : Task -> bool) ts : sublist (List.filter f ts) ts.
Proof.
  induction ts as [|t ts IH]; simpl; [constructor|].
  destruct (f t); now constructor.
Qed.

Lemma filter_twice (f : Task -> bool) ts :
  List.filter f (List.filter f ts) = List.filter f ts.
Proof.
  apply filter_all. intros t Ht. now apply filter_In in Ht.
Qed.

(** X17: under every filter mode the filter step picks tasks out of
    the collection without reordering or repeating them, and filtering
    the result again with the same mode gives the same result. *)
Theorem filteredTasks_sublist (mode : jsstring) ts :
  sublist (filteredTasks mode ts) ts /\
  filteredTasks mode (filteredTasks mode ts) = filteredTasks mode ts.
Proof.
  unfold filteredTasks.
  destruct (strict_eq mode (js "active")).
  - split; [apply filter_sublist|apply filter_twice].
  - destruct (strict_eq mode (js "completed")).
    + split; [apply filter_sublist|apply filter_twice].
    + split; reflexivity.
Qed.

(** X18: [toggleTask i] flips the flag of every task whose id is [i]
    (of each of them, should several share the id). *)
Theorem toggleTask_flips i st :
  forall k t,
    nth_error (tasks st) k = Some t -> id t = i ->
    exists t',
      nth_error (tasks (toggleTask i st)) k = Some t' /\
      completed t' = negb (completed t).
Proof.
  intros k t Hk Hid. rewrite tasks_toggleTask, nth_error_map, Hk. simpl.
  rewrite (proj2 (Z.eqb_eq _ _) Hid). eexists. split; reflexivity.
Qed.

Lemma toggleTask_flips_witness :
  nth_error (tasks one_task) 0 = Some (mkTask 1 (js "a") false (js "11/3/2026")) /\
  exists t', nth_error (tasks (toggleTask 1 one_task)) 0 = Some t' /\
             completed t' = true.
Proof.
  split; [reflexivity|].
  exact (toggleTask_flips 1 one_task 0 _ eq_refl eq_refl).
Defined.

Lemma filter_none (f : Task -> bool) ts :
  (forall t, In t ts -> f t = false) -> List.filter f ts = [].
Proof.
  induction ts as [|t ts IH]; intros H; simpl; [reflexivity|].
  rewrite (H t) by now left. apply IH. intros t' Ht'. apply H. now right.
Qed.

(** X19: with tasks in the collection and none of them completed, the
    percentage is 0. *)
Theorem percentComplete_none_completed ts :
  (Z.of_nat (length ts) <= max_array_length)%Z ->
  ts <> [] ->
  (forall t, In t ts -> completed t = false) ->
  percentComplete ts = of_Z 0.
Proof.
  intros Hmax Hne Hnone. unfold percentComplete.
  rewrite (filter_none (fun t => completed t) ts Hnone).
  destruct ts as [|t ts']; [congruence|].
  set (ts := t :: ts') in *.
  change (Nat.eqb (length ts) 0) with false. cbv iota.
  destruct (of_nat_finite (length ts)) as (m & e & E); [simpl; lia|exact Hmax|].
  rewrite E. reflexivity.
Qed.

Lemma percentComplete_none_completed_witness :
  (Z.of_nat (length (tasks one_task)) <= max_array_length)%Z /\
  percentComplete (tasks one_task) = of_Z 0.
Proof.
  assert (Hmax : (Z.of_nat (length (tasks one_task)) <= max_array_length)%Z).
  { unfold max_array_length. simpl. lia. }
  split; [exact Hmax|].
  apply (percentComplete_none_completed _ Hmax).
  - discriminate.
  - intros t [<-|[]]. reflexivity.
Defined.

(** X20: [JSON.stringify] is one-to-one, on values and on collections:
    two collections that differ in a task, in a field or in the order
    are stored as different texts. *)
Theorem stringify_injective :
  (forall v v' : json, stringify v = stringify v' -> v = v') /\
  (forall ts ts',
      stringify (tasks_to_json ts) = stringify (tasks_to_json ts') -> ts = ts').
Proof.
  assert (Hv : forall v v' : json, stringify v = stringify v' -> v = v').
  { intros v v' H.
    assert (E : JSON.parse (stringify v) = JSON.parse (stringify v')) by now rewrite H.
    rewrite !parse_stringify in E. now injection E. }
  split; [exact Hv|].
  intros ts ts' H. apply Hv in H.
  assert (E : tasks_of_json (tasks_to_json ts) = tasks_of_json (tasks_to_json ts'))
    by now rewrite H.
  rewrite !tasks_of_json_to_json in E. now injection E.
Qed.

End ViewMore.

(** ** 18. [escapeHtml] *)

Section EscapeHtml.
Import Page.

(** The five shapes of an escaped code unit. *)
Lemma html_escape_unit_cases (c : N) :
  (c = 38 /\ html_escape_unit c = [38; 97; 109; 112; 59]) \/
  (c = 160 /\ html_escape_unit c = [38; 110; 98; 115; 112; 59]) \/
  (c = 60 /\ html_escape_unit c = [38; 108; 116; 59]) \/
  (c = 62 /\ html_escape_unit c = [38; 103; 116; 59]) \/
  (c <> 38 /\ c <> 160 /\ c <> 60 /\ c <> 62 /\ html_escape_unit c = [c]).
Proof.
  unfold html_escape_unit.
  destruct (c =? 38) eqn:E1; [apply N.eqb_eq in E1; subst; auto|].
  destruct (c =? 160) eqn:E2; [apply N.eqb_eq in E2; subst; auto|].
  destruct (c =? 60) eqn:E3; [apply N.eqb_eq in E3; subst; auto 6|].
  destruct (c =? 62) eqn:E4; [apply N.eqb_eq in E4; subst; auto 6|].
  apply N.eqb_neq in E1, E2, E3, E4. auto 10.
Qed.

Ltac escape_cases c H :=
  destruct (html_escape_unit_cases c)
    as [[? H]|[[? H]|[[? H]|[[? H]|(? & ? & ? & ? & H)]]]].

(** X21: the output of [escapeHtml] holds no angle bracket, so it opens
    no tag; a string without ampersand, angle bracket and no-break space
    is returned as it is; double quotes are never escaped. *)
Theorem escapeHtml_no_markup (text : jsstring) :
  ~ In 60 (escapeHtml text) /\ ~ In 62 (escapeHtml text) /\
  ((forall c, In c text -> c <> 38 /\ c <> 160 /\ c <> 60 /\ c <> 62) ->
   escapeHtml text = text) /\
  List.filter (N.eqb 34) (escapeHtml text) = List.filter (N.eqb 34) text.
Proof.
  induction text as [|c r (IH1 & IH2 & IH3 & IH4)]; cbn [escapeHtml].
  - repeat split; auto.
  - split; [|split; [|split]].
    + rewrite in_app_iff. intros [H|H]; [|contradiction].
      escape_cases c E; rewrite E in H; simpl in H; intuition (subst; try discriminate; congruence).
    + rewrite in_app_iff. intros [H|H]; [|contradiction].
      escape_cases c E; rewrite E in H; simpl in H; intuition (subst; try discriminate; congruence).
    + intros Hplain.
      destruct (Hplain c (or_introl eq_refl)) as (H1 & H2 & H3 & H4).
      escape_cases c E; try contradiction.
      rewrite E. cbn [app]. f_equal. apply IH3.
      intros c' Hc'. apply Hplain. now right.
    + rewrite List.filter_app, IH4.
      escape_cases c E; rewrite E; subst; try reflexivity.
      cbn [List.filter]. now destruct (34 =? c).
Qed.

Lemma escapeHtml_inj (a b : jsstring) :
  escapeHtml a = escapeHtml b -> a = b.
Proof.
  revert b. induction a as [|c r IH]; intros [|c' r'] H; cbn [escapeHtml] in H.
  - reflexivity.
  - escape_cases c' E; rewrite E in H; discriminate.
  - escape_cases c E; rewrite E in H; discriminate.
  - escape_cases c E; escape_cases c' E'; rewrite E, E' in H; subst;
      cbn [app] in H; try discriminate;
      try (injection H as H; f_equal; now apply IH);
      try (injection H as -> H; f_equal; now apply IH);
      try (injection H as H _; congruence).
Qed.

(** X22: [escapeHtml] is one-to-one: two different texts are never shown
    as the same markup. *)
Theorem escapeHtml_injective (a b : jsstring) :
  a <> b -> escapeHtml a <> escapeHtml b.
Proof.
  intros Hne H. apply Hne. now apply escapeHtml_inj.
Qed.

Lemma escapeHtml_injective_witness :
  js "<" <> js "&lt;" /\
  escapeHtml (js "<") = js "&lt;" /\
  escapeHtml (js "<") <> escapeHtml (js "&lt;").
Proof.
  assert (Hne : js "<" <> js "&lt;") by discriminate.
  split; [exact Hne|]. split; [reflexivity|].
  exact (escapeHtml_injective (js "<") (js "&lt;") Hne).
Defined.

End EscapeHtml.
